(** * Billventory: the inventory ledger and its two implementations

    A shallow embedding of the inventory logic of the Billventory
    application:

    - [Server]: the Express handlers of [server/server.js] over the two
      Mongoose collections of [server/models.js] ([Transaction] and
      [Inventory]);
    - [App]: the effect of [App.tsx] that derives the inventory from the
      list of transactions held by the browser;
    - [Session], [InvoiceForm], [Dashboard], [InventoryList]: the client code
      around them.

    Conventions of the embedding.

    - A JavaScript [number] is a rational of [Q]; [+], [-], [*] and the test
      [> 0] are those of [Q].  The quotient [/] is a parameter [div] of the
      ledger code, so that the structural results below hold for whichever
      value [/] takes; the ledger only ever evaluates it at a strictly
      positive divisor (section "The guard of the division"), where it is
      [Qdiv].  Rounding of doubles, [NaN] and the infinities are not
      modelled.  Results are stated on the expressions that the code
      evaluates, compared with [=]; where a statement compares numbers with
      [==] it is a statement of exact arithmetic, and says so.
    - A string is a [string] of 8-bit code units, read as the code units
      U+0000 to U+00FF of a JavaScript string; [trim] and [toLowerCase] are
      those of ECMAScript on these code units.  Strings with a code unit
      above U+00FF are outside the type.
    - A date is the number of milliseconds [new Date(d).getTime()], in [Z].
    - A Mongoose collection with a unique [id] is a [gmap] from [string].
      The failure of the storage that is modelled is the validation of
      [invItem.save()]: the paths [id] and [name] of [InventorySchema] are
      required, and a required string may not be empty.  A rejected save
      throws; the handler then answers with status 500.
    - The object [newInventory] of the client is a [gmap] for its own
      properties, together with the names that every object inherits from
      [Object.prototype]. *)

From Stdlib Require Import ZArith QArith Qfield Ascii String List Sorted Permutation Lia.
From Stdlib Require Import Lqa.
From stdpp Require Import base option list gmap strings.

Local Open Scope string_scope.

(** ** Strings: [trim] and [toLowerCase] *)

(** White space and line terminators of [String.prototype.trim] among the
    code units up to U+00FF: TAB, LF, VT, FF, CR, SPACE and NO-BREAK SPACE. *)
Definition isWhiteSpace (c : ascii) : bool :=
  let n := N_of_ascii c in
  ((9 <=? n) && (n <=? 13) || (n =? 32) || (n =? 160))%N.

Fixpoint trimStart (s : string) : string :=
  match s with
  | EmptyString => EmptyString
  | String c s' => if isWhiteSpace c then trimStart s' else s
  end.

Fixpoint trimEnd (s : string) : string :=
  match s with
  | EmptyString => EmptyString
  | String c s' =>
      match trimEnd s' with
      | EmptyString => if isWhiteSpace c then EmptyString else String c EmptyString
      | r => String c r
      end
  end.

(** [s.trim()] *)
Definition trim (s : string) : string := trimEnd (trimStart s).

(** The lower case of a code unit up to U+00FF: [A-Z] and the letters
    U+00C0 to U+00DE, without the sign U+00D7, move up by 32. *)
Definition toLowerChar (c : ascii) : ascii :=
  let n := N_of_ascii c in
  if ((65 <=? n) && (n <=? 90)
      || (192 <=? n) && (n <=? 222) && negb (n =? 215))%N
  then ascii_of_N (n + 32) else c.

(** [s.toLowerCase()] *)
Fixpoint toLowerCase (s : string) : string :=
  match s with
  | EmptyString => EmptyString
  | String c s' => String (toLowerChar c) (toLowerCase s')
  end.

(** The product key of a description: the expression
    [item.description.trim().toLowerCase()] of both implementations. *)
Definition normalize (description : string) : string :=
  toLowerCase (trim description).

(** *** Descriptions that differ in case or surrounding white space only

    In the words of the specification, not of the code.  A string is blank
    when it is made of white space; it is clean at an end when it is empty
    or its character at that end is not white space.  A description is a
    core that is clean at both ends, between two blank strings.  Two
    strings have the same letters when they have the same length and
    agree, position by position, up to the case of the letter.  Two
    descriptions are the same up to case and surrounding white space when
    their cores have the same letters. *)
Fixpoint blank (s : string) : bool :=
  match s with
  | EmptyString => true
  | String c s' => isWhiteSpace c && blank s'
  end.

Definition starts_clean (s : string) : Prop :=
  match s with
  | EmptyString => True
  | String c _ => isWhiteSpace c = false
  end.

Fixpoint ends_clean (s : string) : Prop :=
  match s with
  | EmptyString => True
  | String c s' =>
      match s' with
      | EmptyString => isWhiteSpace c = false
      | String _ _ => ends_clean s'
      end
  end.

Inductive same_letters : string → string → Prop :=
  | same_letters_empty : same_letters EmptyString EmptyString
  | same_letters_cons c1 c2 s1 s2 :
      toLowerChar c1 = toLowerChar c2 → same_letters s1 s2 →
      same_letters (String c1 s1) (String c2 s2).

Definition core_of (s core : string) : Prop :=
  ∃ l r, s = l +:+ core +:+ r ∧ blank l = true ∧ blank r = true
         ∧ starts_clean core ∧ ends_clean core.

Definition same_description (s1 s2 : string) : Prop :=
  ∃ core1 core2, core_of s1 core1 ∧ core_of s2 core2 ∧ same_letters core1 core2.

(** A string in lower case: no character of it has a lower case other than
    itself. *)
Fixpoint lower_case (s : string) : Prop :=
  match s with
  | EmptyString => True
  | String c s' => toLowerChar c = c ∧ lower_case s'
  end.

(** ** Numbers *)

(** [x > y] on numbers. *)
Definition Qgtb (x y : Q) : bool := negb (Qle_bool x y).

(** ** Data model ([types.ts], [server/models.js]) *)

Inductive TransactionType : Type := PURCHASE | SALE.

Inductive InvoiceStatus : Type := DRAFT | PENDING | PAID | OVERDUE.

Module LineItem.
Record t : Type := mk {
  id : string;
  description : string;
  quantity : Q;
  price : Q
}.
End LineItem.

Module Invoice.
Record t : Type := mk {
  id : string;
  type : TransactionType;
  invoiceNumber : string;
  partyName : string;
  date : Z;
  dueDate : Z;
  status : InvoiceStatus;
  items : list LineItem.t;
  totalAmount : Q;
  notes : option string
}.
End Invoice.

Module InventoryItem.
Record t : Type := mk {
  id : string;
  name : string;
  quantity : Q;
  averageCost : Q;
  sellingPrice : Q;
  lastUpdated : Z
}.

(** Assignments to one field of an item: [it.quantity = q] and the like. *)
Definition set_quantity (q : Q) (it : t) : t :=
  mk (id it) (name it) q (averageCost it) (sellingPrice it) (lastUpdated it).
Definition set_averageCost (c : Q) (it : t) : t :=
  mk (id it) (name it) (quantity it) c (sellingPrice it) (lastUpdated it).
Definition set_sellingPrice (p : Q) (it : t) : t :=
  mk (id it) (name it) (quantity it) (averageCost it) p (lastUpdated it).
Definition set_lastUpdated (d : Z) (it : t) : t :=
  mk (id it) (name it) (quantity it) (averageCost it) (sellingPrice it) d.
End InventoryItem.

(** ** [Array.prototype.sort] with a comparator

    The sort of ECMAScript is stable; for a comparator that is a difference
    of keys its result is the stable insertion sort below. *)

Fixpoint sort_insert {A : Type} (compareFn : A → A → Z) (x : A) (l : list A) : list A :=
  match l with
  | [] => [x]
  | y :: l' =>
      if (compareFn x y <=? 0)%Z then x :: y :: l'
      else y :: sort_insert compareFn x l'
  end.

Definition sort {A : Type} (compareFn : A → A → Z) (l : list A) : list A :=
  foldr (sort_insert compareFn) [] l.

(** ** The server: [server/server.js] *)

Module Server.

(** The database: the collections behind the models [Transaction] and
    [Inventory], each keyed by the unique field [id]. *)
Record Db : Type := mkDb {
  Transaction : gmap string Invoice.t;
  Inventory : gmap string InventoryItem.t
}.

Definition empty : Db := mkDb ∅ ∅.

(** The responses of [POST /api/transactions]: [res.json({ transaction:
    saved })], or [res.status(500).json({ message })] from the [catch]. *)
Inductive TransactionResponse : Type :=
  | ok (transaction : Invoice.t)
  | error_500.

Record DeleteResponse : Type := mkDeleteResponse {
  success : bool
}.

Record InventoryResponse : Type := mkInventoryResponse {
  item : InventoryItem.t
}.

(** The validation that [invItem.save()] runs: [id] and [name] are required
    strings of [InventorySchema], and an empty string does not satisfy
    [required]. *)
Definition validates (invItem : InventoryItem.t) : bool :=
  negb (bool_decide (InventoryItem.id invItem = EmptyString))
  && negb (bool_decide (InventoryItem.name invItem = EmptyString)).

(** [Transaction.findOneAndUpdate({ id }, transaction, { new: true, upsert:
    true })]: the record after the update.  The fields of the body are set
    on the record found; a field that the body does not carry ([notes], the
    only optional field of a transaction) keeps its stored value.  The
    update runs no validation. *)
Definition findOneAndUpdate (existing : option Invoice.t) (transaction : Invoice.t)
    : Invoice.t :=
  match existing with
  | None => transaction
  | Some stored =>
      Invoice.mk (Invoice.id transaction) (Invoice.type transaction)
        (Invoice.invoiceNumber transaction) (Invoice.partyName transaction)
        (Invoice.date transaction) (Invoice.dueDate transaction)
        (Invoice.status transaction) (Invoice.items transaction)
        (Invoice.totalAmount transaction)
        (match Invoice.notes transaction with
         | Some notes => Some notes
         | None => Invoice.notes stored
         end)
  end.

Section Handlers.
(** JavaScript's [/]. *)
Variable div : Q → Q → Q.

(** Body of the loop [for (const item of transaction.items)] of
    [POST /api/transactions]: the inventory after [await invItem.save()],
    or [None] when the save is rejected and throws. *)
Definition adjust_inventory (transaction : Invoice.t)
    (Inventory : gmap string InventoryItem.t) (item : LineItem.t)
    : option (gmap string InventoryItem.t) :=
  let productId := normalize (LineItem.description item) in
  let invItem :=
    match Inventory !! productId with
    | Some found => found
    | None =>
        InventoryItem.mk productId (LineItem.description item) 0 0 0
          (Invoice.date transaction)
    end in
  let invItem :=
    match Invoice.type transaction with
    | PURCHASE =>
        let currentTotalValue :=
          (InventoryItem.quantity invItem * InventoryItem.averageCost invItem)%Q in
        let newItemsValue :=
          (LineItem.quantity item * LineItem.price item)%Q in
        let invItem :=
          InventoryItem.set_quantity
            (InventoryItem.quantity invItem + LineItem.quantity item)%Q invItem in
        if Qgtb (InventoryItem.quantity invItem) 0
        then InventoryItem.set_averageCost
               (div (currentTotalValue + newItemsValue)%Q
                    (InventoryItem.quantity invItem)) invItem
        else invItem
    | SALE =>
        let invItem :=
          InventoryItem.set_quantity
            (InventoryItem.quantity invItem - LineItem.quantity item)%Q invItem in
        InventoryItem.set_sellingPrice (LineItem.price item) invItem
    end in
  let invItem := InventoryItem.set_lastUpdated (Invoice.date transaction) invItem in
  if validates invItem then Some (<[productId := invItem]> Inventory) else None.

(** The loop [for (const item of transaction.items)]: the inventory when the
    loop is left, and whether it ran to its end ([true]) or was left by the
    exception of a rejected save ([false]); the saves made before the
    exception stay. *)
Fixpoint adjust_all (transaction : Invoice.t)
    (Inventory : gmap string InventoryItem.t) (items : list LineItem.t)
    : gmap string InventoryItem.t * bool :=
  match items with
  | [] => (Inventory, true)
  | item :: items' =>
      match adjust_inventory transaction Inventory item with
      | Some Inventory' => adjust_all transaction Inventory' items'
      | None => (Inventory, false)
      end
  end.

(** [POST /api/transactions] *)
Definition post_transactions (db : Db) (transaction : Invoice.t)
    : Db * TransactionResponse :=
  let existing := Transaction db !! Invoice.id transaction in
  let adjusted :=
    match existing with
    | None => adjust_all transaction (Inventory db) (Invoice.items transaction)
    | Some _ => (Inventory db, true)
    end in
  if adjusted.2
  then
    let saved := findOneAndUpdate existing transaction in
    (mkDb (<[Invoice.id transaction := saved]> (Transaction db)) adjusted.1,
     ok saved)
  else (mkDb (Transaction db) adjusted.1, error_500).
End Handlers.

(** [DELETE /api/transactions/:id] *)
Definition delete_transactions (db : Db) (id : string) : Db * DeleteResponse :=
  (mkDb (delete id (Transaction db)) (Inventory db), mkDeleteResponse true).

(** [POST /api/inventory]; the update runs no validation. *)
Definition post_inventory (db : Db) (item : InventoryItem.t) : Db * InventoryResponse :=
  let saved := item in
  (mkDb (Transaction db) (<[InventoryItem.id item := saved]> (Inventory db)),
   mkInventoryResponse saved).

(** A sequence of submissions, one request after the other. *)
Definition submit_all (div : Q → Q → Q) (db : Db) (history : list Invoice.t) : Db :=
  foldl (λ db transaction, (post_transactions div db transaction).1) db history.

(** [GET /api/transactions]: the body of the response, the stored
    transactions by descending date (in the order in which the collection
    yields them where dates are equal). *)
Definition get_transactions (db : Db) : list Invoice.t :=
  let transactions :=
    sort (λ a b, Invoice.date b - Invoice.date a)%Z
      ((map_to_list (Transaction db)).*2) in
  transactions.

End Server.

(** ** The client: the effect "Derive Inventory from Transactions" of [App.tsx] *)

Module App.

(** The properties of [Object.prototype], which the object literal [{}]
    inherits; the value of each is a function or an object. *)
Definition Object_prototype : list string :=
  [ "constructor"; "__defineGetter__"; "__defineSetter__"; "hasOwnProperty";
    "__lookupGetter__"; "__lookupSetter__"; "isPrototypeOf";
    "propertyIsEnumerable"; "toString"; "valueOf"; "__proto__";
    "toLocaleString" ].

Definition inherited (key : string) : bool :=
  bool_decide (key ∈ Object_prototype).

(** Whether [newInventory[key]] is truthy: an own entry is an object, and so
    is what the object inherits. *)
Definition truthy (newInventory : gmap string InventoryItem.t) (key : string) : bool :=
  match newInventory !! key with
  | Some _ => true
  | None => inherited key
  end.

Section Derive.
Variable div : Q → Q → Q.

(** Body of [inv.items.forEach(item => ...)]: the entry
    [newInventory[key]] is created when [!newInventory[key]] and then
    updated in place.  Under an inherited name that is not an own property,
    the updates assign to the inherited object and [newInventory] gets no
    property. *)
Definition derive_item (inv : Invoice.t)
    (newInventory : gmap string InventoryItem.t) (item : LineItem.t)
    : gmap string InventoryItem.t :=
  let key := normalize (LineItem.description item) in
  let newInventory :=
    if negb (truthy newInventory key)
    then <[key := InventoryItem.mk key (LineItem.description item) 0 0 0
                    (Invoice.date inv)]> newInventory
    else newInventory in
  let newInventory :=
    match Invoice.type inv with
    | PURCHASE =>
        alter (λ entry,
          let currentTotalValue :=
            (InventoryItem.quantity entry * InventoryItem.averageCost entry)%Q in
          let newItemsValue :=
            (LineItem.quantity item * LineItem.price item)%Q in
          let entry :=
            InventoryItem.set_quantity
              (InventoryItem.quantity entry + LineItem.quantity item)%Q entry in
          if Qgtb (InventoryItem.quantity entry) 0
          then InventoryItem.set_averageCost
                 (div (currentTotalValue + newItemsValue)%Q
                      (InventoryItem.quantity entry)) entry
          else entry) key newInventory
    | SALE =>
        alter (λ entry,
          let entry :=
            InventoryItem.set_quantity
              (InventoryItem.quantity entry - LineItem.quantity item)%Q entry in
          InventoryItem.set_sellingPrice (LineItem.price item) entry)
          key newInventory
    end in
  alter (InventoryItem.set_lastUpdated (Invoice.date inv)) key newInventory.

(** The own properties of the object [newInventory] at the end of the
    effect, for the state [transactions]. *)
Definition deriveInventory (transactions : list Invoice.t)
    : gmap string InventoryItem.t :=
  let sortedTransactions :=
    sort (λ a b, Invoice.date a - Invoice.date b)%Z transactions in
  foldl (λ newInventory inv,
           foldl (derive_item inv) newInventory (Invoice.items inv))
        ∅ sortedTransactions.
End Derive.

End App.

(** ** Division under a guard

    [guard_div div other] is [div] at a strictly positive divisor and [other]
    elsewhere: a quotient that differs from [div] exactly where the divisor
    is zero or negative. *)
Definition guard_div (div other : Q → Q → Q) : Q → Q → Q :=
  λ a b, if Qgtb b 0 then div a b else other a b.

(** ** Sample data *)

(** The seed transactions of [App.tsx]. *)
Definition seed_purchase : Invoice.t :=
  Invoice.mk "1" PURCHASE "INV-VENDOR-001" "Tech Suppliers Inc"
    1707955200000 1710460800000 PAID
    [LineItem.mk "i1" "Laptops" 5 30000] 150000 None.

Definition seed_sale : Invoice.t :=
  Invoice.mk "2" SALE "BILL-0001" "Rahul Sharma"
    1708387200000 1708387200000 PAID
    [LineItem.mk "i2" "Laptops" 1 35000] 35000 None.

Definition seed : list Invoice.t := [seed_purchase; seed_sale].

(** ** The client and the server together: the state [transactions] of
    [App.tsx] and the database *)

Module Session.

(** The update of the state [transactions] in [saveTransaction]: the saved
    transaction replaces the ones of its id, or comes first when there is
    none. *)
Definition setTransactions_saved (savedTransaction : Invoice.t) (prev : list Invoice.t)
    : list Invoice.t :=
  let exists_ :=
    existsb (λ t, bool_decide (Invoice.id t = Invoice.id savedTransaction)) prev in
  if exists_
  then map (λ t, if bool_decide (Invoice.id t = Invoice.id savedTransaction)
                 then savedTransaction else t) prev
  else savedTransaction :: prev.

(** [saveTransaction], on the database of the server and the state
    [transactions]: [MongoService.saveTransaction] posts the transaction and
    returns the field [transaction] of the response, or throws when the
    response is not OK; the [catch] then leaves the state as it is. *)
Definition saveTransaction (div : Q → Q → Q) (state : Server.Db * list Invoice.t)
    (transaction : Invoice.t) : Server.Db * list Invoice.t :=
  let posted := Server.post_transactions div state.1 transaction in
  match posted.2 with
  | Server.ok savedTransaction =>
      (posted.1, setTransactions_saved savedTransaction state.2)
  | Server.error_500 => (posted.1, state.2)
  end.

(** The loop [for (const t of seed)] of [fetchData]: the database and the
    list [seededData], or [None] in its place once a save has thrown. *)
Definition save_seed (div : Q → Q → Q)
    (acc : Server.Db * option (list Invoice.t)) (t : Invoice.t)
    : Server.Db * option (list Invoice.t) :=
  match acc.2 with
  | Some seededData =>
      let posted := Server.post_transactions div acc.1 t in
      match posted.2 with
      | Server.ok saved => (posted.1, Some (seededData ++ [saved])%list)
      | Server.error_500 => (posted.1, None)
      end
  | None => acc
  end.

(** [fetchData]: the state [transactions] after the first load, and the
    database, to which the seed is saved, one transaction after the other,
    when the server has no transaction.  When a save of the seed throws,
    [setTransactions] is not reached and the state stays the empty list. *)
Definition fetchData (div : Q → Q → Q) (db : Server.Db)
    : Server.Db * list Invoice.t :=
  let data := Server.get_transactions db in
  if decide (length data = 0)
  then
    let seeded := foldl (save_seed div) (db, Some []) seed in
    (seeded.1, default [] seeded.2)
  else (db, data).

End Session.

(** A sale of the same product under another spelling, dated before the
    seed purchase. *)
Definition early_sale : Invoice.t :=
  Invoice.mk "3" SALE "BILL-0000" "Asha Rao"
    1707000000000 1707000000000 PENDING
    [LineItem.mk "i3" "  LAPTOPS " 2 36000] 72000 None.

(** The seed purchase submitted again under the same id after an edit of its
    date and of the quantity bought. *)
Definition seed_purchase_edited : Invoice.t :=
  Invoice.mk "1" PURCHASE "INV-VENDOR-001" "Tech Suppliers Inc"
    1708000000000 1710460800000 PAID
    [LineItem.mk "i1" "Laptops" 3 30000] 90000 None.

(** A second purchase of the seed product, under another spelling. *)
Definition restock : Invoice.t :=
  Invoice.mk "4" PURCHASE "INV-VENDOR-002" "Tech Suppliers Inc"
    1709000000000 1711000000000 PENDING
    [LineItem.mk "i4" " laptops" 3 40000] 120000 None.

(** An inventory that holds the product of the seed purchase. *)
Definition stock : gmap string InventoryItem.t :=
  {[ "laptops" := InventoryItem.mk "laptops" "Laptops" 5 30000 0 1707955200000 ]}.

(** An inventory with more units sold than bought. *)
Definition oversold : gmap string InventoryItem.t :=
  {[ "laptops" := InventoryItem.mk "laptops" "Laptops" (-7) 30000 35000 1708387200000 ]}.

(** An inventory whose entry has no name, as [POST /api/inventory] stores it
    when sent one. *)
Definition unnamed_stock : gmap string InventoryItem.t :=
  {[ "laptops" := InventoryItem.mk "laptops" EmptyString 5 30000 0 1707955200000 ]}.

(** The scenario of the specification: a purchase of "Laptop", then a sale of
    "laptop ". *)
Definition scenario : list Invoice.t :=
  [ Invoice.mk "t1" PURCHASE "INV-1" "Vendor" 1 1 PAID
      [LineItem.mk "a" "Laptop" 5 30000] 150000 None;
    Invoice.mk "t2" SALE "BILL-1" "Customer" 2 2 PAID
      [LineItem.mk "b" "laptop " 1 35000] 35000 None ].

(** A sale of another product. *)
Definition mouse_sale : Invoice.t :=
  Invoice.mk "5" SALE "BILL-0002" "Rahul Sharma"
    1709500000000 1709500000000 PENDING
    [LineItem.mk "i5" "Mouse" 2 500; LineItem.mk "i6" "Keyboard" 1 1500] 2500 None.

(** A purchase whose second line was left blank in the form. *)
Definition purchase_with_blank_line : Invoice.t :=
  Invoice.mk "6" PURCHASE "INV-VENDOR-003" "Tech Suppliers Inc"
    1709600000000 1709600000000 PENDING
    [LineItem.mk "i7" "Laptops" 5 30000; LineItem.mk "i8" "  " 1 100] 150100 None.

(** A sale whose only line is the line that the form adds, left as it is. *)
Definition sale_with_blank_line : Invoice.t :=
  Invoice.mk "9" SALE "BILL-0004" "Asha Rao"
    1709900000000 1709900000000 PENDING
    [LineItem.mk "i11" EmptyString 1 0] 0 None.

(** A purchase and a sale of a product called "Constructor". *)
Definition constructor_purchase : Invoice.t :=
  Invoice.mk "7" PURCHASE "INV-VENDOR-004" "Toy Makers Ltd"
    1709700000000 1709700000000 PENDING
    [LineItem.mk "i9" "Constructor" 4 250] 1000 None.

Definition constructor_sale : Invoice.t :=
  Invoice.mk "8" SALE "BILL-0003" "Asha Rao"
    1709800000000 1709800000000 PENDING
    [LineItem.mk "i10" "Constructor" 1 400] 400 None.

(** ** The form: [InvoiceForm.tsx] *)

Module InvoiceForm.

(** A field of a line item with the value to assign to it: the arguments
    [field] and [value] of [updateItem]. *)
Inductive FieldValue : Type :=
  | id_ (value : string)
  | description_ (value : string)
  | quantity_ (value : Q)
  | price_ (value : Q).

(** [{ ...i, [field]: value }] *)
Definition assign (i : LineItem.t) (fv : FieldValue) : LineItem.t :=
  match fv with
  | id_ value =>
      LineItem.mk value (LineItem.description i) (LineItem.quantity i) (LineItem.price i)
  | description_ value =>
      LineItem.mk (LineItem.id i) value (LineItem.quantity i) (LineItem.price i)
  | quantity_ value =>
      LineItem.mk (LineItem.id i) (LineItem.description i) value (LineItem.price i)
  | price_ value =>
      LineItem.mk (LineItem.id i) (LineItem.description i) (LineItem.quantity i) value
  end.

(** [addItem]; [now] is [Date.now().toString()]. *)
Definition addItem (now : string) (items : list LineItem.t) : list LineItem.t :=
  (items ++ [LineItem.mk now EmptyString 1 0])%list.

Definition removeItem (id : string) (items : list LineItem.t) : list LineItem.t :=
  List.filter (λ i, negb (bool_decide (LineItem.id i = id))) items.

Definition updateItem (id : string) (fv : FieldValue) (items : list LineItem.t)
    : list LineItem.t :=
  map (λ i, if bool_decide (LineItem.id i = id) then assign i fv else i) items.

Definition calculateTotal (items : list LineItem.t) : Q :=
  foldl (λ sum item, (sum + LineItem.quantity item * LineItem.price item)%Q) 0%Q items.

(** The state of the form. *)
Record State : Type := mkState {
  partyName : string;
  invoiceNumber : string;
  date : Z;
  dueDate : Z;
  status : InvoiceStatus;
  items : list LineItem.t
}.

(** The transaction that [handleSubmit] passes to [onSave]; [initialData] is
    the transaction being edited, if any, [type] the property of the form and
    [now] is [Date.now().toString()]. *)
Definition handleSubmit (initialData : option Invoice.t) (type : TransactionType)
    (now : string) (form : State) : Invoice.t :=
  Invoice.mk
    (match initialData with
     | Some data =>
         if bool_decide (Invoice.id data = EmptyString) then now else Invoice.id data
     | None => now
     end)
    (match initialData with
     | Some data => Invoice.type data
     | None => type
     end)
    (invoiceNumber form) (partyName form) (date form) (dueDate form) (status form)
    (items form) (calculateTotal (items form)) None.

End InvoiceForm.

(** ** The dashboard: [Dashboard.tsx] *)

Module Dashboard.

Record Stats : Type := mkStats {
  totalRevenue : Q;
  totalExpenses : Q;
  netProfit : Q;
  pendingCollections : Q
}.

Definition stats (transactions : list Invoice.t) : Stats :=
  let sales :=
    List.filter (λ t, match Invoice.type t with SALE => true | PURCHASE => false end)
      transactions in
  let purchases :=
    List.filter (λ t, match Invoice.type t with PURCHASE => true | SALE => false end)
      transactions in
  let totalRevenue := foldl (λ sum t, (sum + Invoice.totalAmount t)%Q) 0%Q sales in
  let totalExpenses := foldl (λ sum t, (sum + Invoice.totalAmount t)%Q) 0%Q purchases in
  let netProfit := (totalRevenue - totalExpenses)%Q in
  let pendingCollections :=
    foldl (λ sum t, (sum + Invoice.totalAmount t)%Q) 0%Q
      (List.filter (λ t, match Invoice.status t with PENDING => true | _ => false end)
         sales) in
  mkStats totalRevenue totalExpenses netProfit pendingCollections.

End Dashboard.

(** ** The stock list: [InventoryList.tsx] *)

Module InventoryList.

(** [x < y] on numbers. *)
Definition Qltb (x y : Q) : bool := negb (Qle_bool y x).

Definition lowStockCount (inventory : list InventoryItem.t) : nat :=
  length (List.filter (λ i, Qltb (InventoryItem.quantity i) 5) inventory).

(** The badge in the last column of a row. *)
Inductive Badge : Type := OutOfStock | LowStock | InStock.

Definition badge (item : InventoryItem.t) : Badge :=
  if Qle_bool (InventoryItem.quantity item) 0 then OutOfStock
  else if Qltb (InventoryItem.quantity item) 5 then LowStock
  else InStock.

End InventoryList.

(** ** The entry that one iteration writes

    Both loops take the entry of the key, or a new one, apply the branch of
    the type of the transaction and set [lastUpdated]. *)

(** The entry that the initialisation creates for a line item. *)
Definition new_entry (t : Invoice.t) (item : LineItem.t) : InventoryItem.t :=
  InventoryItem.mk (normalize (LineItem.description item)) (LineItem.description item)
    0 0 0 (Invoice.date t).

(** The entry [prior] after the branch of the type of [t] and the assignment
    of [lastUpdated]. *)
Definition entry_after (div : Q → Q → Q) (t : Invoice.t) (prior : InventoryItem.t)
    (item : LineItem.t) : InventoryItem.t :=
  InventoryItem.mk (InventoryItem.id prior) (InventoryItem.name prior)
    match Invoice.type t with
    | PURCHASE => (InventoryItem.quantity prior + LineItem.quantity item)%Q
    | SALE => (InventoryItem.quantity prior - LineItem.quantity item)%Q
    end
    match Invoice.type t with
    | PURCHASE =>
        if Qgtb (InventoryItem.quantity prior + LineItem.quantity item) 0
        then div (InventoryItem.quantity prior * InventoryItem.averageCost prior
                  + LineItem.quantity item * LineItem.price item)%Q
                 (InventoryItem.quantity prior + LineItem.quantity item)%Q
        else InventoryItem.averageCost prior
    | SALE => InventoryItem.averageCost prior
    end
    match Invoice.type t with
    | PURCHASE => InventoryItem.sellingPrice prior
    | SALE => LineItem.price item
    end
    (Invoice.date t).

(** The inventory with the entry of a line item written: what an iteration
    of the server leaves when the save is accepted, and what an iteration of
    the client leaves when it does not fall on an inherited name. *)
Definition book (div : Q → Q → Q) (t : Invoice.t) (m : gmap string InventoryItem.t)
    (item : LineItem.t) : gmap string InventoryItem.t :=
  <[normalize (LineItem.description item) :=
      entry_after div t
        (default (new_entry t item) (m !! normalize (LineItem.description item)))
        item]> m.

(** ** Keys that both implementations hold

    The server rejects an entry of the empty key, and the client creates no
    entry under a name that its object inherits. *)
Definition plain_key (k : string) : bool :=
  negb (bool_decide (k = EmptyString)) && negb (App.inherited k).

Definition plain_transaction (t : Invoice.t) : bool :=
  forallb (λ item, plain_key (normalize (LineItem.description item))) (Invoice.items t).

Definition plain_history (history : list Invoice.t) : bool :=
  forallb plain_transaction history.

(** The entries of an inventory all pass the validation of a save. *)
Definition inventory_valid (m : gmap string InventoryItem.t) : Prop :=
  ∀ k entry, m !! k = Some entry → Server.validates entry = true.

(** ** Line items and keys of a history *)

(** The keys of the line items of a history. *)
Definition keys_of (history : list Invoice.t) : gset string :=
  list_to_set ((λ item, normalize (LineItem.description item))
                 <$> flat_map Invoice.items history).

(** The line items of a history, each with its transaction, in the order in
    which a fold of the ledger over the history applies them. *)
Definition line_items (history : list Invoice.t) : list (Invoice.t * LineItem.t) :=
  flat_map (λ t, (λ item, (t, item)) <$> Invoice.items t) history.

Definition filed_under (k : string) (line : Invoice.t * LineItem.t) : bool :=
  bool_decide (normalize (LineItem.description line.2) = k).

Definition sold_under (k : string) (line : Invoice.t * LineItem.t) : bool :=
  filed_under k line
  && match Invoice.type line.1 with SALE => true | PURCHASE => false end.

(** The quantities of a list of line items, added to [start] for a purchase
    and taken from it for a sale, one after the other in the order of the
    list. *)
Definition running_quantity (start : Q) (lines : list (Invoice.t * LineItem.t)) : Q :=
  foldl (λ quantity line,
           match Invoice.type line.1 with
           | PURCHASE => (quantity + LineItem.quantity line.2)%Q
           | SALE => (quantity - LineItem.quantity line.2)%Q
           end) start lines.

(** The line items to which the client gives an entry: those whose key is
    not an inherited name. *)
Definition own_line (line : Invoice.t * LineItem.t) : bool :=
  negb (App.inherited (normalize (LineItem.description line.2))).

(** An inventory of the client: no entry under an inherited name. *)
Definition no_inherited (m : gmap string InventoryItem.t) : Prop :=
  ∀ k, App.inherited k = true → m !! k = None.

(** Every record of a collection is stored under its own [id]. *)
Definition inventory_keyed (m : gmap string InventoryItem.t) : Prop :=
  ∀ k entry, m !! k = Some entry → InventoryItem.id entry = k.

Definition transactions_keyed (m : gmap string Invoice.t) : Prop :=
  ∀ k t, m !! k = Some t → Invoice.id t = k.

(** * Properties *)

(** ** The product key *)

Section Normalization.

Lemma toLowerChar_idemp c : toLowerChar (toLowerChar c) = toLowerChar c.
Proof. destruct c as [[] [] [] [] [] [] [] []]; reflexivity. Qed.

Lemma isWhiteSpace_toLowerChar c : isWhiteSpace (toLowerChar c) = isWhiteSpace c.
Proof. destruct c as [[] [] [] [] [] [] [] []]; reflexivity. Qed.

Lemma toLowerCase_idemp s : toLowerCase (toLowerCase s) = toLowerCase s.
Proof.
  induction s as [|c s IH]; simpl; [reflexivity|].
  now rewrite toLowerChar_idemp, IH.
Qed.

Lemma toLowerCase_app s r :
  toLowerCase (s +:+ r) = toLowerCase s +:+ toLowerCase r.
Proof. induction s as [|c s IH]; simpl; [reflexivity|]. now rewrite IH. Qed.

Lemma trimStart_toLowerCase s : trimStart (toLowerCase s) = toLowerCase (trimStart s).
Proof.
  induction s as [|c s IH]; simpl; [reflexivity|].
  rewrite isWhiteSpace_toLowerChar. now destruct (isWhiteSpace c).
Qed.

Lemma trimEnd_toLowerCase s : trimEnd (toLowerCase s) = toLowerCase (trimEnd s).
Proof.
  induction s as [|c s IH]; simpl; [reflexivity|].
  rewrite IH, isWhiteSpace_toLowerChar.
  destruct (trimEnd s); simpl; [now destruct (isWhiteSpace c)|reflexivity].
Qed.

(** Lower-casing and trimming commute. *)
Lemma trim_toLowerCase s : trim (toLowerCase s) = toLowerCase (trim s).
Proof. unfold trim. now rewrite trimStart_toLowerCase, trimEnd_toLowerCase. Qed.

Lemma trimStart_clean s : starts_clean (trimStart s).
Proof.
  induction s as [|c s IH]; simpl; [exact I|].
  destruct (isWhiteSpace c) eqn:E; [exact IH|exact E].
Qed.

Lemma trimStart_of_clean s : starts_clean s → trimStart s = s.
Proof. destruct s as [|c s]; simpl; [reflexivity|]. now intros ->. Qed.

Lemma trimEnd_clean s : starts_clean s → starts_clean (trimEnd s).
Proof.
  destruct s as [|c s]; simpl; [trivial|]. intros E.
  destruct (trimEnd s); simpl; [now rewrite E|exact E].
Qed.

Lemma trimEnd_ends_clean s : ends_clean (trimEnd s).
Proof.
  induction s as [|c s IH]; simpl; [exact I|].
  destruct (trimEnd s) as [|c' r] eqn:E.
  - destruct (isWhiteSpace c) eqn:W; simpl; [exact I|exact W].
  - exact IH.
Qed.

Lemma trimEnd_of_clean s : ends_clean s → trimEnd s = s.
Proof.
  induction s as [|c s IH]; [reflexivity|].
  destruct s as [|c' s'].
  - simpl. now intros ->.
  - intros H. change (trimEnd (String c (String c' s')))
      with (match trimEnd (String c' s') with
            | EmptyString =>
                if isWhiteSpace c then EmptyString else String c EmptyString
            | r => String c r
            end).
    now rewrite (IH H).
Qed.

Lemma trimEnd_idemp s : trimEnd (trimEnd s) = trimEnd s.
Proof. apply trimEnd_of_clean, trimEnd_ends_clean. Qed.

Lemma trim_idemp s : trim (trim s) = trim s.
Proof.
  unfold trim.
  rewrite (trimStart_of_clean (trimEnd (trimStart s))).
  - apply trimEnd_idemp.
  - apply trimEnd_clean, trimStart_clean.
Qed.

Lemma trim_of_clean s : starts_clean s → ends_clean s → trim s = s.
Proof.
  intros Hs He. unfold trim. rewrite (trimStart_of_clean s Hs).
  now apply trimEnd_of_clean.
Qed.

Lemma trimStart_blank s : blank s = true → trimStart s = EmptyString.
Proof.
  induction s as [|c s IH]; simpl; [reflexivity|].
  intros [-> Hs]%andb_true_iff. auto.
Qed.

Lemma trimEnd_blank s : blank s = true → trimEnd s = EmptyString.
Proof.
  induction s as [|c s IH]; simpl; [reflexivity|].
  intros [-> Hs]%andb_true_iff. now rewrite IH.
Qed.

Lemma trimStart_app_blank l s : blank l = true → trimStart (l +:+ s) = trimStart s.
Proof.
  induction l as [|c l IH]; simpl; [reflexivity|].
  intros [-> Hl]%andb_true_iff. auto.
Qed.

Lemma trimEnd_app_blank s r : blank r = true → trimEnd (s +:+ r) = trimEnd s.
Proof.
  intros Hr. induction s as [|c s IH]; simpl.
  - now apply trimEnd_blank.
  - now rewrite IH.
Qed.

Lemma trim_app_blank s r : blank r = true → trim (s +:+ r) = trim s.
Proof.
  intros Hr. unfold trim. induction s as [|c s IH]; simpl.
  - change (EmptyString +:+ r) with r. rewrite (trimStart_blank r Hr). reflexivity.
  - change (String c s +:+ r) with (String c (s +:+ r)). simpl.
    destruct (isWhiteSpace c); [exact IH|].
    apply (trimEnd_app_blank (String c s) r Hr).
Qed.

Lemma trim_surrounded l s r :
  blank l = true → blank r = true → trim (l +:+ s +:+ r) = trim s.
Proof.
  intros Hl Hr. unfold trim at 1. rewrite (trimStart_app_blank l _ Hl).
  now apply trim_app_blank.
Qed.

(** What [trimStart] and [trimEnd] remove is white space at the end that
    they trim. *)
Lemma trimStart_decompose s : ∃ l, s = l +:+ trimStart s ∧ blank l = true.
Proof.
  induction s as [|c s (l & IH & Hl)]; simpl.
  - now exists EmptyString.
  - destruct (isWhiteSpace c) eqn:W.
    + exists (String c l). split.
      * change (String c l +:+ trimStart s) with (String c (l +:+ trimStart s)).
        now rewrite <- IH.
      * simpl. now rewrite W.
    + now exists EmptyString.
Qed.

Lemma trimEnd_decompose s : ∃ r, s = trimEnd s +:+ r ∧ blank r = true.
Proof.
  induction s as [|c s (r & IH & Hr)]; simpl.
  - now exists EmptyString.
  - destruct (trimEnd s) as [|c' s'] eqn:E.
    + change (EmptyString +:+ r) with r in IH. subst s.
      destruct (isWhiteSpace c) eqn:W.
      * exists (String c r). split; [reflexivity|]. simpl. now rewrite W.
      * exists r. split; [reflexivity|exact Hr].
    + exists r. split; [|exact Hr].
      change (String c (String c' s') +:+ r)
        with (String c (String c' s' +:+ r)).
      now rewrite <- IH.
Qed.

(** Every description has a core, the one that [trim] returns; and [trim]
    returns the core of a description. *)
Lemma core_of_trim s : core_of s (trim s).
Proof.
  destruct (trimStart_decompose s) as (l & Hs & Hl).
  destruct (trimEnd_decompose (trimStart s)) as (r & Ht & Hr).
  exists l, r. split; [|split; [exact Hl|split; [exact Hr|split]]].
  - unfold trim. now rewrite <- Ht.
  - apply trimEnd_clean, trimStart_clean.
  - apply trimEnd_ends_clean.
Qed.

Lemma trim_of_core s core : core_of s core → trim s = core.
Proof.
  intros (l & r & -> & Hl & Hr & Hs & He).
  rewrite (trim_surrounded l core r Hl Hr). now apply trim_of_clean.
Qed.

Lemma same_letters_toLowerCase s1 s2 :
  same_letters s1 s2 ↔ toLowerCase s1 = toLowerCase s2.
Proof.
  split.
  - induction 1 as [|c1 c2 s1 s2 Hc _ IH]; simpl; [reflexivity|].
    now rewrite Hc, IH.
  - revert s2. induction s1 as [|c1 s1 IH]; intros [|c2 s2]; simpl;
      try discriminate; [constructor|].
    intros [= Hc Hs]. constructor; [exact Hc|now apply IH].
Qed.

Lemma starts_clean_toLowerCase s : starts_clean (toLowerCase s) ↔ starts_clean s.
Proof. destruct s as [|c s]; simpl; [reflexivity|]. now rewrite isWhiteSpace_toLowerChar. Qed.

Lemma ends_clean_toLowerCase s : ends_clean (toLowerCase s) ↔ ends_clean s.
Proof.
  induction s as [|c s IH]; [reflexivity|].
  destruct s as [|c' s']; simpl in *.
  - now rewrite isWhiteSpace_toLowerChar.
  - exact IH.
Qed.

Lemma lower_case_toLowerCase s : lower_case (toLowerCase s).
Proof.
  induction s as [|c s IH]; simpl; [exact I|].
  split; [apply toLowerChar_idemp|exact IH].
Qed.

Lemma toLowerCase_of_lower_case s : lower_case s → toLowerCase s = s.
Proof.
  induction s as [|c s IH]; simpl; [reflexivity|].
  intros [-> Hs]. now rewrite IH.
Qed.

Lemma normalize_idemp s : normalize (normalize s) = normalize s.
Proof. unfold normalize. now rewrite trim_toLowerCase, trim_idemp, toLowerCase_idemp. Qed.

(** Two descriptions have the same key exactly when they differ in case and
    surrounding white space only. *)
Lemma normalize_same_description s1 s2 :
  normalize s1 = normalize s2 ↔ same_description s1 s2.
Proof.
  unfold normalize. split.
  - intros E. exists (trim s1), (trim s2).
    split; [apply core_of_trim|]. split; [apply core_of_trim|].
    now apply same_letters_toLowerCase.
  - intros (core1 & core2 & H1 & H2 & Hl).
    rewrite (trim_of_core s1 core1 H1), (trim_of_core s2 core2 H2).
    now apply same_letters_toLowerCase.
Qed.

(** The keys are the strings in lower case with no white space at either
    end. *)
Lemma normalize_fixed s :
  normalize s = s ↔ starts_clean s ∧ ends_clean s ∧ lower_case s.
Proof.
  unfold normalize. split.
  - intros E. rewrite <- E. split; [|split].
    + apply starts_clean_toLowerCase, trimEnd_clean, trimStart_clean.
    + apply ends_clean_toLowerCase, trimEnd_ends_clean.
    + apply lower_case_toLowerCase.
  - intros (Hs & He & Hl). rewrite (trim_of_clean s Hs He).
    now apply toLowerCase_of_lower_case.
Qed.

Lemma normalize_nonempty s : normalize s ≠ EmptyString → s ≠ EmptyString.
Proof. intros H ->. now apply H. Qed.

End Normalization.

(** ** Numbers *)

Lemma Qgtb_lt x y : Qgtb x y = true ↔ (y < x)%Q.
Proof.
  unfold Qgtb. rewrite negb_true_iff, <- not_true_iff_false, Qle_bool_iff.
  split; [apply Qnot_le_lt|apply Qlt_not_le].
Qed.

(** ** Sorting *)

Section Sort.
Context {A : Type} (compareFn : A → A → Z).

Lemma sort_insert_Permutation x l : Permutation (sort_insert compareFn x l) (x :: l).
Proof.
  induction l as [|y l IH]; simpl; [reflexivity|].
  destruct (compareFn x y <=? 0)%Z; [reflexivity|].
  rewrite IH. apply perm_swap.
Qed.

Lemma sort_Permutation l : Permutation (sort compareFn l) l.
Proof.
  induction l as [|x l IH]; simpl; [reflexivity|].
  rewrite sort_insert_Permutation. now constructor.
Qed.

(** On a list that is in order already the sort changes nothing. *)
Lemma sort_of_sorted l :
  Sorted (λ a b, compareFn a b ≤ 0)%Z l → sort compareFn l = l.
Proof.
  induction 1 as [|x l Hl IH Hx]; simpl; [reflexivity|].
  fold (sort compareFn l). rewrite IH.
  destruct Hx as [|y l' Hxy]; simpl; [reflexivity|].
  now apply Z.leb_le in Hxy as ->.
Qed.
End Sort.

Section SortByKey.
Context {A : Type} (key : A → Z).
Local Abbreviation byKey := (λ a b : A, key a - key b)%Z.

Lemma sort_insert_HdRel x y l :
  (key y ≤ key x)%Z → HdRel (λ a b, key a ≤ key b)%Z y l →
  HdRel (λ a b, key a ≤ key b)%Z y (sort_insert byKey x l).
Proof.
  intros Hyx [|z l' Hyz]; simpl; [now constructor|].
  destruct (key x - key z <=? 0)%Z; now constructor.
Qed.

Lemma sort_insert_Sorted x l :
  Sorted (λ a b, key a ≤ key b)%Z l →
  Sorted (λ a b, key a ≤ key b)%Z (sort_insert byKey x l).
Proof.
  induction 1 as [|y l Hl IH Hy]; simpl; [repeat constructor|].
  destruct (key x - key y <=? 0)%Z eqn:E.
  - apply Z.leb_le in E. repeat constructor; [assumption..|lia].
  - apply Z.leb_gt in E. constructor; [exact IH|].
    apply sort_insert_HdRel; [lia|exact Hy].
Qed.

(** The result of the sort is in ascending order of the key. *)
Lemma sort_Sorted l : Sorted (λ a b, key a ≤ key b)%Z (sort byKey l).
Proof.
  induction l as [|x l IH]; simpl; [constructor|].
  now apply sort_insert_Sorted.
Qed.

Lemma sort_insert_filter_ne (P : A → bool) x l :
  P x = false → List.filter P (sort_insert byKey x l) = List.filter P l.
Proof.
  intros Hx. induction l as [|y l IH]; simpl.
  - now rewrite Hx.
  - destruct (key x - key y <=? 0)%Z; simpl; [now rewrite Hx|].
    now rewrite IH.
Qed.

Lemma sort_insert_filter_eq k x l :
  key x = k → Sorted (λ a b, key a ≤ key b)%Z l →
  List.filter (λ a, key a =? k)%Z (sort_insert byKey x l)
  = x :: List.filter (λ a, key a =? k)%Z l.
Proof.
  intros Hx Hl. induction Hl as [|y l Hl IH Hy]; simpl.
  - now rewrite (proj2 (Z.eqb_eq _ _) Hx).
  - destruct (key x - key y <=? 0)%Z eqn:E; simpl.
    + now rewrite (proj2 (Z.eqb_eq _ _) Hx).
    + apply Z.leb_gt in E. rewrite IH.
      destruct (key y =? k)%Z eqn:Ey; [apply Z.eqb_eq in Ey; lia|reflexivity].
Qed.

(** The sort is stable: the elements of one key keep their order. *)
Lemma sort_stable k l :
  List.filter (λ a, key a =? k)%Z (sort byKey l) = List.filter (λ a, key a =? k)%Z l.
Proof.
  induction l as [|x l IH]; simpl; [reflexivity|].
  fold (sort byKey l).
  destruct (key x =? k)%Z eqn:E.
  - apply Z.eqb_eq in E. rewrite sort_insert_filter_eq; [|exact E|apply sort_Sorted].
    now rewrite IH.
  - now rewrite sort_insert_filter_ne, IH.
Qed.
End SortByKey.



Section SortFacts.
Context {A : Type}.

Lemma sort_ext (f g : A → A → Z) l :
  (∀ a b, f a b = g a b) → sort f l = sort g l.
Proof.
  intros Hfg. induction l as [|x l IH]; simpl; [reflexivity|].
  fold (sort f l) (sort g l). rewrite IH. clear IH.
  induction (sort g l) as [|y l' IH]; simpl; [reflexivity|].
  now rewrite Hfg, IH.
Qed.

Variable key : A → Z.

Lemma Sorted_le_NoDup_lt l :
  Sorted (λ a b, key a ≤ key b)%Z l → NoDup (key <$> l) →
  StronglySorted (λ a b, key a < key b)%Z l.
Proof.
  intros Hs. apply Sorted_StronglySorted in Hs; [|intros a b c; lia].
  induction Hs as [|a l Hs IH Ha]; intros Hnd; [constructor|].
  apply NoDup_cons in Hnd as [Hnotin Hnd]. constructor; [now apply IH|].
  apply List.Forall_forall. intros b Hb.
  pose proof (proj1 (List.Forall_forall _ _) Ha b Hb) as Hle. cbv beta in Hle.
  assert (key a ≠ key b); [|lia].
  intros Heq. apply Hnotin. rewrite Heq.
  apply list_elem_of_fmap_2. now apply list_elem_of_In.
Qed.

(** Two lists in strictly ascending order of the key with the same elements
    are the same list. *)
Lemma StronglySorted_lt_Permutation l1 : ∀ l2,
  StronglySorted (λ a b, key a < key b)%Z l1 →
  StronglySorted (λ a b, key a < key b)%Z l2 →
  Permutation l1 l2 → l1 = l2.
Proof.
  induction l1 as [|a l1 IH]; intros l2 H1 H2 Hp.
  - now apply Permutation_nil in Hp.
  - destruct l2 as [|b l2]; [now apply Permutation_sym, Permutation_nil in Hp|].
    apply StronglySorted_inv in H1 as [H1 Ha].
    apply StronglySorted_inv in H2 as [H2 Hb].
    assert (a = b) as <-.
    { assert (Hin_a : List.In a (b :: l2)) by (eapply Permutation_in; [exact Hp|now left]).
      assert (Hin_b : List.In b (a :: l1))
        by (eapply Permutation_in; [apply Permutation_sym, Hp|now left]).
      destruct Hin_a as [->|Hin_a]; [reflexivity|].
      destruct Hin_b as [->|Hin_b]; [reflexivity|].
      pose proof (proj1 (List.Forall_forall _ _) Hb a Hin_a) as Hba.
      pose proof (proj1 (List.Forall_forall _ _) Ha b Hin_b) as Hab.
      cbv beta in Hba, Hab. lia. }
    f_equal. apply IH; [assumption..|]. now apply Permutation_cons_inv in Hp.
Qed.

(** Where the keys are pairwise distinct, the sort sends two arrangements of
    the same elements to the same list. *)
Lemma sort_Permutation_distinct l l' :
  Permutation l l' → NoDup (key <$> l) →
  sort (λ a b, key a - key b)%Z l = sort (λ a b, key a - key b)%Z l'.
Proof.
  intros Hp Hnd.
  assert (Hnd' : NoDup (key <$> l')) by now rewrite <- Hp.
  apply StronglySorted_lt_Permutation.
  - apply Sorted_le_NoDup_lt; [apply sort_Sorted|].
    now rewrite (sort_Permutation (λ a b, key a - key b)%Z l).
  - apply Sorted_le_NoDup_lt; [apply sort_Sorted|].
    now rewrite (sort_Permutation (λ a b, key a - key b)%Z l').
  - now rewrite !sort_Permutation.
Qed.

End SortFacts.

(** ** The ledger step *)

Lemma findOneAndUpdate_again existing transaction :
  Server.findOneAndUpdate (Some (Server.findOneAndUpdate existing transaction)) transaction
  = Server.findOneAndUpdate existing transaction.
Proof.
  destruct transaction as [i ty n p d dd st it tot [notes|]];
    destruct existing as [stored|]; reflexivity.
Qed.

Lemma findOneAndUpdate_id existing transaction :
  Invoice.id (Server.findOneAndUpdate existing transaction) = Invoice.id transaction.
Proof. now destruct existing. Qed.

Section Ledger.
Variable div : Q → Q → Q.

Local Abbreviation key_of := (λ item : LineItem.t, normalize (LineItem.description item)).

(** An iteration of the server writes the entry of the line item, unless the
    save is rejected: the validation looks at [id] and [name], which the
    iteration does not change. *)
Lemma adjust_inventory_book t m item :
  Server.adjust_inventory div t m item
  = if Server.validates (default (new_entry t item) (m !! key_of item))
    then Some (book div t m item) else None.
Proof.
  unfold Server.adjust_inventory, book, entry_after, new_entry.
  destruct (m !! _) as [found|]; destruct (Invoice.type t); cbv zeta; simpl;
    try destruct (Qgtb _ 0); reflexivity.
Qed.

(** An iteration of the client writes the entry of the line item, unless the
    key is an inherited name of which the object has no entry of its own. *)
Lemma derive_item_book t m item :
  App.derive_item div t m item
  = match m !! key_of item with
    | Some _ => book div t m item
    | None => if App.inherited (key_of item) then m else book div t m item
    end.
Proof.
  unfold App.derive_item, App.truthy, book, entry_after, new_entry.
  destruct (m !! normalize (LineItem.description item)) as [found|] eqn:E;
    [|destruct (App.inherited _)]; simpl negb; cbv iota;
    destruct (Invoice.type t); cbv zeta;
    apply map_eq; intros j;
    destruct (decide (normalize (LineItem.description item) = j)) as [<-|Hne];
    rewrite ?lookup_alter_eq, ?lookup_insert_eq, ?E;
    rewrite ?lookup_alter_ne, ?lookup_insert_ne by assumption;
    simpl; try destruct (Qgtb _ 0); reflexivity.
Qed.

Lemma book_ne t m item k : key_of item ≠ k → book div t m item !! k = m !! k.
Proof. intros Hne. unfold book. now rewrite lookup_insert_ne. Qed.

Lemma book_eq t m item :
  book div t m item !! key_of item
  = Some (entry_after div t (default (new_entry t item) (m !! key_of item)) item).
Proof. unfold book. now rewrite lookup_insert_eq. Qed.

Lemma adjust_inventory_ne t m item m' k :
  Server.adjust_inventory div t m item = Some m' →
  key_of item ≠ k → m' !! k = m !! k.
Proof.
  rewrite adjust_inventory_book. destruct (Server.validates _); [|discriminate].
  intros [= <-]. apply book_ne.
Qed.

Lemma derive_item_ne t m item k :
  key_of item ≠ k → App.derive_item div t m item !! k = m !! k.
Proof.
  intros Hne. rewrite derive_item_book.
  destruct (m !! key_of item); [now apply book_ne|].
  destruct (App.inherited _); [reflexivity|now apply book_ne].
Qed.

(** What is written passes the validation when the entry read does. *)
Lemma book_valid t m item :
  Server.validates (default (new_entry t item) (m !! key_of item)) = true →
  inventory_valid m → inventory_valid (book div t m item).
Proof.
  intros Hv Hm k entry. unfold book. rewrite lookup_insert.
  case_decide as Hk; [|apply Hm]. intros [= <-]. exact Hv.
Qed.

Lemma adjust_inventory_valid t m item m' :
  Server.adjust_inventory div t m item = Some m' →
  inventory_valid m → inventory_valid m'.
Proof.
  rewrite adjust_inventory_book.
  destruct (Server.validates _) eqn:Hv; [|discriminate].
  intros [= <-]. now apply book_valid.
Qed.

Lemma adjust_all_valid t items : ∀ m,
  inventory_valid m → inventory_valid (Server.adjust_all div t m items).1.
Proof.
  induction items as [|item items IH]; intros m Hm; simpl; [exact Hm|].
  destruct (Server.adjust_inventory div t m item) as [m'|] eqn:E; [|exact Hm].
  apply IH. now apply (adjust_inventory_valid t m item).
Qed.

(** A new entry of a plain key passes the validation: the description of a
    key that is not empty is not empty. *)
Lemma validates_new_entry t item :
  Server.validates (new_entry t item)
  = negb (bool_decide (key_of item = EmptyString)).
Proof.
  unfold Server.validates, new_entry. simpl.
  destruct (decide (normalize (LineItem.description item) = EmptyString)) as [Hk|Hk].
  - now rewrite (bool_decide_eq_true_2 _ Hk).
  - rewrite (bool_decide_eq_false_2 _ Hk).
    now rewrite (bool_decide_eq_false_2 _ (normalize_nonempty _ Hk)).
Qed.

Lemma validates_prior t m item :
  plain_key (key_of item) = true → inventory_valid m →
  Server.validates (default (new_entry t item) (m !! key_of item)) = true.
Proof.
  intros [Hk _]%andb_true_iff Hm.
  destruct (m !! key_of item) as [found|] eqn:E; simpl.
  - now apply (Hm _ _ E).
  - now rewrite validates_new_entry.
Qed.

(** On a line item of a plain key, and an inventory whose entries pass the
    validation, the server saves what the client writes. *)
Lemma adjust_inventory_derive_item t m item :
  plain_key (key_of item) = true → inventory_valid m →
  Server.adjust_inventory div t m item = Some (App.derive_item div t m item)
  ∧ inventory_valid (App.derive_item div t m item).
Proof.
  intros Hk Hm. pose proof (validates_prior t m item Hk Hm) as Hv.
  rewrite adjust_inventory_book, derive_item_book, Hv.
  apply andb_true_iff in Hk as [_ Hi]. apply negb_true_iff in Hi. rewrite Hi.
  assert (E : match m !! key_of item with
              | Some _ => book div t m item
              | None => book div t m item
              end = book div t m item) by now destruct (m !! key_of item).
  rewrite E. split; [reflexivity|now apply book_valid].
Qed.

Lemma adjust_all_derive t items : ∀ m,
  forallb (λ item, plain_key (key_of item)) items = true → inventory_valid m →
  Server.adjust_all div t m items = (foldl (App.derive_item div t) m items, true)
  ∧ inventory_valid (foldl (App.derive_item div t) m items).
Proof.
  induction items as [|item items IH]; intros m Hp Hm; simpl; [now split|].
  simpl in Hp. apply andb_true_iff in Hp as [Hk Hp].
  destruct (adjust_inventory_derive_item t m item Hk Hm) as [-> Hm'].
  now apply IH.
Qed.

(** The two cases of a submission: the id is stored, or it is new. *)
Lemma post_transactions_existing db t stored :
  Server.Transaction db !! Invoice.id t = Some stored →
  Server.post_transactions div db t
  = (Server.mkDb
       (<[Invoice.id t := Server.findOneAndUpdate (Some stored) t]> (Server.Transaction db))
       (Server.Inventory db),
     Server.ok (Server.findOneAndUpdate (Some stored) t)).
Proof. intros E. unfold Server.post_transactions. now rewrite E. Qed.

Lemma post_transactions_new db t :
  Server.Transaction db !! Invoice.id t = None →
  Server.post_transactions div db t
  = if (Server.adjust_all div t (Server.Inventory db) (Invoice.items t)).2
    then (Server.mkDb (<[Invoice.id t := t]> (Server.Transaction db))
            (Server.adjust_all div t (Server.Inventory db) (Invoice.items t)).1,
          Server.ok t)
    else (Server.mkDb (Server.Transaction db)
            (Server.adjust_all div t (Server.Inventory db) (Invoice.items t)).1,
          Server.error_500).
Proof. intros E. unfold Server.post_transactions. now rewrite E. Qed.

Lemma post_transactions_Inventory db t :
  Server.Inventory (Server.post_transactions div db t).1
  = match Server.Transaction db !! Invoice.id t with
    | Some _ => Server.Inventory db
    | None => (Server.adjust_all div t (Server.Inventory db) (Invoice.items t)).1
    end.
Proof.
  unfold Server.post_transactions.
  destruct (Server.Transaction db !! Invoice.id t); [reflexivity|].
  now destruct (Server.adjust_all div t (Server.Inventory db) (Invoice.items t)) as [? [|]].
Qed.

Lemma post_transactions_Transaction db t :
  Server.Transaction (Server.post_transactions div db t).1
  = match (Server.post_transactions div db t).2 with
    | Server.ok saved => <[Invoice.id t := saved]> (Server.Transaction db)
    | Server.error_500 => Server.Transaction db
    end.
Proof.
  unfold Server.post_transactions.
  destruct (Server.Transaction db !! Invoice.id t); [reflexivity|].
  now destruct (Server.adjust_all div t (Server.Inventory db) (Invoice.items t)) as [? [|]].
Qed.

Lemma post_transactions_ok_new db t saved :
  Server.Transaction db !! Invoice.id t = None →
  (Server.post_transactions div db t).2 = Server.ok saved →
  saved = t
  ∧ (Server.adjust_all div t (Server.Inventory db) (Invoice.items t)).2 = true.
Proof.
  intros E. rewrite (post_transactions_new db t E).
  destruct (Server.adjust_all div t (Server.Inventory db) (Invoice.items t)) as [? [|]];
    cbn [fst snd]; [|discriminate].
  now intros [= <-].
Qed.

Lemma post_transactions_ok db t saved :
  (Server.post_transactions div db t).2 = Server.ok saved →
  saved = Server.findOneAndUpdate (Server.Transaction db !! Invoice.id t) t.
Proof.
  unfold Server.post_transactions.
  destruct (Server.Transaction db !! Invoice.id t); cbn [fst snd]; [now intros [= <-]|].
  destruct (Server.adjust_all div t (Server.Inventory db) (Invoice.items t)) as [? [|]];
    cbn [fst snd]; [now intros [= <-]|discriminate].
Qed.

Lemma post_transactions_keyed db t :
  transactions_keyed (Server.Transaction db) →
  transactions_keyed (Server.Transaction (Server.post_transactions div db t).1).
Proof.
  intros HT. rewrite post_transactions_Transaction.
  destruct (Server.post_transactions div db t).2 as [saved|] eqn:E; [|exact HT].
  apply post_transactions_ok in E. intros k t'. rewrite lookup_insert.
  case_decide as Hk; [|apply HT]. intros [= <-]. subst saved.
  now rewrite findOneAndUpdate_id.
Qed.

Lemma submit_all_keyed h : ∀ db,
  transactions_keyed (Server.Transaction db) →
  transactions_keyed (Server.Transaction (Server.submit_all div db h)).
Proof.
  induction h as [|t h IH]; intros db HT; [exact HT|].
  unfold Server.submit_all in *. simpl. now apply IH, post_transactions_keyed.
Qed.

(** A submission of a plain transaction under a new id to a database whose
    inventory passes the validation is answered with the transaction, and
    books each line as the client does. *)
Lemma post_transactions_plain db t :
  Server.Transaction db !! Invoice.id t = None →
  plain_transaction t = true → inventory_valid (Server.Inventory db) →
  Server.post_transactions div db t
  = (Server.mkDb (<[Invoice.id t := t]> (Server.Transaction db))
       (foldl (App.derive_item div t) (Server.Inventory db) (Invoice.items t)),
     Server.ok t)
  ∧ inventory_valid (foldl (App.derive_item div t) (Server.Inventory db) (Invoice.items t)).
Proof.
  intros Hnew Hp Hm. unfold Server.post_transactions. rewrite Hnew.
  destruct (adjust_all_derive t (Invoice.items t) (Server.Inventory db) Hp Hm)
    as [-> Hm'].
  now split.
Qed.

Lemma submit_all_plain h : ∀ db,
  NoDup (Invoice.id <$> h) →
  (∀ t, t ∈ h → Server.Transaction db !! Invoice.id t = None) →
  plain_history h = true → inventory_valid (Server.Inventory db) →
  Server.Inventory (Server.submit_all div db h)
  = foldl (λ newInventory inv,
             foldl (App.derive_item div inv) newInventory (Invoice.items inv))
      (Server.Inventory db) h
  ∧ inventory_valid (Server.Inventory (Server.submit_all div db h)).
Proof.
  induction h as [|t h IH]; intros db Hnd Hnew Hp Hm; [now split|].
  apply NoDup_cons in Hnd as [Ht Hnd].
  simpl in Hp. apply andb_true_iff in Hp as [Hpt Hp].
  destruct (post_transactions_plain db t (Hnew t ltac:(left)) Hpt Hm) as [E Hm'].
  unfold Server.submit_all in *. simpl. rewrite E. simpl.
  apply (IH (Server.mkDb _ _)); simpl; [exact Hnd| |exact Hp|exact Hm'].
  intros t' Ht'. rewrite lookup_insert_ne.
  - apply Hnew. now right.
  - intros Heq. apply Ht. rewrite Heq. now apply list_elem_of_fmap_2.
Qed.

(** The loop of the server books a first part of the line items, and all of
    them exactly when no save is rejected; it is left at the first line item
    whose entry does not pass the validation. *)
Lemma adjust_all_booked t items : ∀ m,
  ∃ booked rest,
    items = (booked ++ rest)%list
    ∧ Server.adjust_all div t m booked = (foldl (book div t) m booked, true)
    ∧ (Server.adjust_all div t m items).1 = foldl (book div t) m booked
    ∧ (Server.adjust_all div t m items).2 = bool_decide (rest = [])
    ∧ match rest with
      | [] => True
      | item :: _ =>
          Server.validates
            (default (new_entry t item) (foldl (book div t) m booked !! key_of item))
          = false
      end.
Proof.
  induction items as [|item items IH]; intros m; simpl.
  - exists [], []. now repeat split.
  - rewrite adjust_inventory_book.
    destruct (Server.validates _) eqn:Hv.
    + destruct (IH (book div t m item)) as (booked & rest & -> & E0 & E1 & E2 & E3).
      exists (item :: booked), rest. simpl. rewrite adjust_inventory_book, Hv.
      now repeat split.
    + exists [], (item :: items). now repeat split.
Qed.

Lemma adjust_all_true t items m :
  (Server.adjust_all div t m items).2 = true →
  (Server.adjust_all div t m items).1 = foldl (book div t) m items.
Proof.
  destruct (adjust_all_booked t items m) as (booked & rest & -> & _ & E1 & E2 & _).
  rewrite E2, E1. intros ->%bool_decide_eq_true. now rewrite app_nil_r.
Qed.

Lemma adjust_all_app t items1 items2 m :
  Server.adjust_all div t m (items1 ++ items2)
  = if (Server.adjust_all div t m items1).2
    then Server.adjust_all div t (Server.adjust_all div t m items1).1 items2
    else Server.adjust_all div t m items1.
Proof.
  revert m. induction items1 as [|item items1 IH]; intros m; simpl; [reflexivity|].
  destruct (Server.adjust_inventory div t m item); [apply IH|reflexivity].
Qed.

(** The loop of the server changes no entry other than those of the keys of
    its line items, and removes none. *)
Lemma adjust_all_frame t items k : ∀ m,
  k ∉ (list_to_set (key_of <$> items) : gset string) →
  (Server.adjust_all div t m items).1 !! k = m !! k.
Proof.
  induction items as [|item items IH]; intros m Hk; simpl; [reflexivity|].
  rewrite fmap_cons, list_to_set_cons, not_elem_of_union, not_elem_of_singleton in Hk.
  destruct Hk as [Hk Hks].
  destruct (Server.adjust_inventory div t m item) as [m'|] eqn:E; [|reflexivity].
  rewrite (IH m' Hks). apply (adjust_inventory_ne t m item m' k E). congruence.
Qed.

Lemma adjust_all_dom t items : ∀ m,
  dom m ⊆ dom (Server.adjust_all div t m items).1.
Proof.
  induction items as [|item items IH]; intros m; simpl; [reflexivity|].
  rewrite adjust_inventory_book.
  destruct (Server.validates _); [|reflexivity].
  etrans; [|apply IH]. unfold book. rewrite dom_insert_L.
  apply union_subseteq_r.
Qed.

(** An entry that passes the validation is still there, and still passes
    it, after the loop of the server. *)
Lemma adjust_all_keeps_valid t items k : ∀ m entry,
  m !! k = Some entry → Server.validates entry = true →
  ∃ entry', (Server.adjust_all div t m items).1 !! k = Some entry'
            ∧ Server.validates entry' = true.
Proof.
  induction items as [|item items IH]; intros m entry Hm Hv; simpl; [eauto|].
  rewrite adjust_inventory_book.
  destruct (Server.validates (default _ (m !! key_of item))) eqn:Hp; [|eauto].
  destruct (decide (key_of item = k)) as [Hk|Hk].
  - apply (IH _ (entry_after div t entry item)); [|exact Hv].
    rewrite <- Hk, book_eq, Hk, Hm. reflexivity.
  - apply (IH _ entry); [|exact Hv]. now rewrite book_ne.
Qed.

(** After a loop that ran to its end, each key of the line items has an
    entry that passes the validation. *)
Lemma adjust_all_true_ready t items : ∀ m,
  (Server.adjust_all div t m items).2 = true →
  ∀ item, item ∈ items →
    ∃ entry, (Server.adjust_all div t m items).1 !! key_of item = Some entry
             ∧ Server.validates entry = true.
Proof.
  induction items as [|item items IH]; intros m Hok item' Hin; [now apply elem_of_nil in Hin|].
  simpl in *. rewrite adjust_inventory_book in *.
  destruct (Server.validates (default _ (m !! key_of item))) eqn:Hp; [|discriminate].
  apply elem_of_cons in Hin as [->|Hin]; [|now apply IH].
  apply (adjust_all_keeps_valid t items (key_of item) _
           (entry_after div t (default (new_entry t item) (m !! key_of item)) item)).
  - apply book_eq.
  - exact Hp.
Qed.

(** The loop runs to its end when each key of the line items has an entry
    that passes the validation. *)
Lemma adjust_all_ready t items : ∀ m,
  (∀ item, item ∈ items →
     ∃ entry, m !! key_of item = Some entry ∧ Server.validates entry = true) →
  (Server.adjust_all div t m items).2 = true.
Proof.
  induction items as [|item items IH]; intros m Hm; simpl; [reflexivity|].
  rewrite adjust_inventory_book.
  destruct (Hm item ltac:(left)) as (entry & He & Hv). rewrite He. simpl default.
  rewrite Hv. apply IH. intros item' Hin.
  destruct (decide (key_of item = key_of item')) as [Hk|Hk].
  - exists (entry_after div t entry item). split; [|exact Hv].
    rewrite <- Hk, book_eq, He. reflexivity.
  - destruct (Hm item' ltac:(now right)) as (entry' & He' & Hv').
    exists entry'. split; [|exact Hv']. now rewrite book_ne.
Qed.

(** A loop that was left by a rejected save is left by it again when it runs
    a second time, on the inventory that the first run left. *)
Lemma adjust_all_false_again t items m :
  (Server.adjust_all div t m items).2 = false →
  (Server.adjust_all div t (Server.adjust_all div t m items).1 items).2 = false.
Proof.
  destruct (adjust_all_booked t items m) as (booked & rest & -> & E0 & E1 & E2 & E3).
  rewrite E2, E1. intros Hrest%bool_decide_eq_false.
  destruct rest as [|item rest]; [now destruct Hrest|]. clear Hrest.
  assert (Hready : ∀ item', item' ∈ booked →
            ∃ entry, foldl (book div t) m booked !! key_of item' = Some entry
                     ∧ Server.validates entry = true).
  { intros item' Hin.
    pose proof (adjust_all_true_ready t booked m) as H. rewrite E0 in H.
    now apply H. }
  pose proof (adjust_all_ready t booked _ Hready) as Hagain.
  rewrite adjust_all_app, Hagain. simpl. rewrite adjust_inventory_book.
  assert (Hk : key_of item ∉ (list_to_set (key_of <$> booked) : gset string)).
  { rewrite elem_of_list_to_set, list_elem_of_fmap. intros (item' & Hkey & Hin).
    destruct (Hready item' Hin) as (entry & He & Hv).
    rewrite Hkey, He in E3. simpl in E3. congruence. }
  rewrite (adjust_all_frame t booked (key_of item) _ Hk). now rewrite E3.
Qed.

End Ledger.

(** ** Deriving the inventory and maintaining it agree *)

Lemma Sorted_by_date (l : list Invoice.t) :
  Sorted (λ a b, Invoice.date a ≤ Invoice.date b)%Z l →
  Sorted (λ a b, Invoice.date a - Invoice.date b ≤ 0)%Z l.
Proof.
  induction 1 as [|a l Hl IH Ha]; constructor; [exact IH|].
  destruct Ha; constructor; lia.
Qed.

Lemma inventory_valid_empty : inventory_valid ∅.
Proof. intros k entry. now rewrite lookup_empty. Qed.

(** C1, amended. For a transaction history in ascending order of business
    date, with pairwise distinct ids, in which no line item has a key that
    is empty or a name that objects inherit, the inventory that the server
    maintains when the transactions are submitted one after the other to an
    empty database is the inventory that the client derives from the whole
    history: the same keys, and for each key the same record. *)
Theorem inventory_fold_equivalence (div : Q → Q → Q) (history : list Invoice.t) :
  Sorted (λ a b, Invoice.date a ≤ Invoice.date b)%Z history →
  NoDup (Invoice.id <$> history) →
  plain_history history = true →
  Server.Inventory (Server.submit_all div Server.empty history)
  = App.deriveInventory div history.
Proof.
  intros Hsorted Hnodup Hplain. unfold App.deriveInventory.
  rewrite sort_of_sorted by now apply Sorted_by_date.
  apply (submit_all_plain div history Server.empty Hnodup); [|exact Hplain|].
  - intros t _. apply lookup_empty.
  - apply inventory_valid_empty.
Qed.

Lemma inventory_fold_equivalence_witness :
  Sorted (λ a b, Invoice.date a ≤ Invoice.date b)%Z seed
  ∧ NoDup (Invoice.id <$> seed)
  ∧ plain_history seed = true
  ∧ Server.Inventory (Server.submit_all Qdiv Server.empty seed)
    = App.deriveInventory Qdiv seed.
Proof.
  assert (Hs : Sorted (λ a b, Invoice.date a ≤ Invoice.date b)%Z seed).
  { repeat constructor. simpl. lia. }
  assert (Hn : NoDup (Invoice.id <$> seed)).
  { apply (bool_decide_unpack _). vm_compute. exact I. }
  assert (Hp : plain_history seed = true) by reflexivity.
  exact (conj Hs (conj Hn (conj Hp (inventory_fold_equivalence Qdiv seed Hs Hn Hp)))).
Defined.

(** C1, as stated for every history, fails in four ways.  A history that is
    not in order of business date: the sale [early_sale] is submitted after
    the seed purchase but dated before it, so that the server names the
    product after the purchase and the client after the sale.  A history in
    order of date in which an id comes twice: the server adjusts the
    inventory for the first submission only, the client applies both (and
    only the second if it holds the edited transaction alone).  A
    transaction with a blank line: the server rejects the entry of the empty
    key and answers 500, the client keeps an entry under the empty key.  A
    product called "Constructor": the server stores an entry under the key
    "constructor", the client none, as its object inherits that name. *)
Lemma derive_vs_submit_counterexample :
  Server.Inventory (Server.submit_all Qdiv Server.empty [seed_purchase; early_sale])
    ≠ App.deriveInventory Qdiv [seed_purchase; early_sale]
  ∧ Sorted (λ a b, Invoice.date a ≤ Invoice.date b)%Z [seed_purchase; seed_purchase_edited]
  ∧ Server.Inventory
      (Server.submit_all Qdiv Server.empty [seed_purchase; seed_purchase_edited])
    ≠ App.deriveInventory Qdiv [seed_purchase; seed_purchase_edited]
  ∧ Server.Inventory
      (Server.submit_all Qdiv Server.empty [seed_purchase; seed_purchase_edited])
    ≠ App.deriveInventory Qdiv [seed_purchase_edited]
  ∧ Server.Inventory (Server.submit_all Qdiv Server.empty [purchase_with_blank_line])
    ≠ App.deriveInventory Qdiv [purchase_with_blank_line]
  ∧ Server.Inventory (Server.submit_all Qdiv Server.empty [constructor_purchase])
    ≠ App.deriveInventory Qdiv [constructor_purchase].
Proof.
  split; [|split; [|split; [|split; [|split]]]].
  - intros H. apply (f_equal (λ m, InventoryItem.name <$> m !! "laptops")) in H.
    vm_compute in H. discriminate H.
  - repeat constructor. simpl. lia.
  - intros H. apply (f_equal (λ m, InventoryItem.quantity <$> m !! "laptops")) in H.
    vm_compute in H. discriminate H.
  - intros H. apply (f_equal (λ m, InventoryItem.quantity <$> m !! "laptops")) in H.
    vm_compute in H. discriminate H.
  - intros H. apply (f_equal (λ m, InventoryItem.name <$> m !! EmptyString)) in H.
    vm_compute in H. discriminate H.
  - intros H. apply (f_equal (λ m, InventoryItem.name <$> m !! "constructor")) in H.
    vm_compute in H. discriminate H.
Qed.

(** ** The response of a submission *)

(** C2, as stated, fails: no function of the response of
    [POST /api/transactions] tells whether the id existed before. *)
Lemma post_transactions_reports_isNew_counterexample :
  ¬ ∃ isNew : Server.TransactionResponse → bool,
      ∀ db transaction,
        isNew (Server.post_transactions Qdiv db transaction).2
        = bool_decide (Server.Transaction db !! Invoice.id transaction = None).
Proof.
  intros [isNew H].
  pose proof (H Server.empty seed_purchase) as H1.
  pose proof (H (Server.post_transactions Qdiv Server.empty seed_purchase).1
                seed_purchase) as H2.
  vm_compute in H1, H2. congruence.
Qed.

(** C2, amended. A submission is answered with the stored transaction
    record, or with an error; there is no flag for whether the id existed.
    An answer with a record is the record now found under the id, namely
    the body merged into the record found (the body itself when the id is
    new); it does not tell whether the id existed, as it is also the answer
    to the same submission made again, when the id exists.  An error is the
    answer exactly when the id is new and the save of an entry of the
    inventory is rejected; it leaves the transaction store as it was.
    Whether the id existed decides, inside the operation, if the loop over
    the line items runs. *)
Theorem post_transactions_response (div : Q → Q → Q) (db : Server.Db)
    (transaction : Invoice.t) :
  let result := Server.post_transactions div db transaction in
  let existing := Server.Transaction db !! Invoice.id transaction in
  let adjusted :=
    Server.adjust_all div transaction (Server.Inventory db) (Invoice.items transaction) in
  match result.2 with
  | Server.ok saved =>
      saved = Server.findOneAndUpdate existing transaction
      ∧ (existing = None → saved = transaction)
      ∧ Server.Transaction result.1 !! Invoice.id transaction = Some saved
      ∧ (∀ j, j ≠ Invoice.id transaction →
              Server.Transaction result.1 !! j = Server.Transaction db !! j)
      ∧ (Server.post_transactions div result.1 transaction).2 = Server.ok saved
  | Server.error_500 =>
      existing = None ∧ adjusted.2 = false
      ∧ Server.Transaction result.1 = Server.Transaction db
  end
  ∧ (result.2 = Server.error_500 ↔ existing = None ∧ adjusted.2 = false)
  ∧ Server.Inventory result.1
    = match existing with
      | None => adjusted.1
      | Some _ => Server.Inventory db
      end.
Proof.
  cbv zeta. unfold Server.post_transactions at 1 2 3 4 5 7 8.
  destruct (Server.Transaction db !! Invoice.id transaction) as [stored|] eqn:E.
  - cbn [fst snd Server.Transaction Server.Inventory].
    split; [|split; [split; [discriminate|now intros [? _]]|reflexivity]].
    split; [reflexivity|]. split; [discriminate|].
    split; [apply lookup_insert_eq|].
    split; [intros j Hj; now apply lookup_insert_ne|].
    unfold Server.post_transactions. cbn [Server.Transaction Server.Inventory].
    rewrite lookup_insert_eq. cbn [snd].
    now rewrite (findOneAndUpdate_again (Some stored)).
  - destruct (Server.adjust_all div transaction (Server.Inventory db)
                (Invoice.items transaction)) as [Inventory' [|]] eqn:Ea;
      cbn [fst snd Server.Transaction Server.Inventory].
    + split; [|split; [split; [discriminate|now intros [_ ?]]|reflexivity]].
      split; [reflexivity|]. split; [reflexivity|].
      split; [apply lookup_insert_eq|].
      split; [intros j Hj; now apply lookup_insert_ne|].
      unfold Server.post_transactions. cbn [Server.Transaction Server.Inventory].
      rewrite lookup_insert_eq. cbn [snd].
      now rewrite (findOneAndUpdate_again None).
    + unfold Server.post_transactions. rewrite E, Ea.
      split; [now repeat split|]. split; [now split|reflexivity].
Qed.

Lemma post_transactions_response_witness :
  let db := Server.submit_all Qdiv Server.empty seed in
  (Server.post_transactions Qdiv db restock).2 = Server.ok restock
  ∧ Server.Transaction (Server.post_transactions Qdiv db restock).1 !! "4" = Some restock
  ∧ (Server.post_transactions Qdiv (Server.post_transactions Qdiv db restock).1 restock).2
    = Server.ok restock
  ∧ (Server.post_transactions Qdiv db purchase_with_blank_line).2 = Server.error_500
  ∧ Server.Transaction (Server.post_transactions Qdiv db purchase_with_blank_line).1
    = Server.Transaction db.
Proof.
  cbv zeta.
  pose proof (post_transactions_response Qdiv (Server.submit_all Qdiv Server.empty seed)
                restock) as H1.
  pose proof (post_transactions_response Qdiv (Server.submit_all Qdiv Server.empty seed)
                purchase_with_blank_line) as H2.
  cbv zeta in H1, H2.
  assert (E1 : (Server.post_transactions Qdiv (Server.submit_all Qdiv Server.empty seed)
                  restock).2 = Server.ok restock) by reflexivity.
  assert (E2 : (Server.post_transactions Qdiv (Server.submit_all Qdiv Server.empty seed)
                  purchase_with_blank_line).2 = Server.error_500) by reflexivity.
  rewrite E1 in H1. rewrite E2 in H2.
  destruct H1 as [(_ & _ & Ha & _ & Hb) _]. destruct H2 as [(_ & _ & Hc) _].
  exact (conj E1 (conj Ha (conj Hb (conj E2 Hc)))).
Defined.

(** ** The weighted average cost *)




(** ** Sales *)

(** C4, as stated, fails: a sale also overwrites [lastUpdated].  The seed
    sale applied to the stock left by the seed purchase moves [lastUpdated]
    from the date of the purchase to the date of the sale. *)
Lemma sale_frame_counterexample :
  ∃ found entry,
    Invoice.type seed_sale = SALE
    ∧ stock !! normalize "Laptops" = Some found
    ∧ Server.adjust_inventory Qdiv seed_sale stock (LineItem.mk "i2" "Laptops" 1 35000)
      = Some (<[normalize "Laptops" := entry]> stock)
    ∧ App.derive_item Qdiv seed_sale stock (LineItem.mk "i2" "Laptops" 1 35000)
      = <[normalize "Laptops" := entry]> stock
    ∧ InventoryItem.lastUpdated found = 1707955200000%Z
    ∧ InventoryItem.lastUpdated entry = 1708387200000%Z
    ∧ InventoryItem.lastUpdated entry ≠ InventoryItem.lastUpdated found.
Proof.
  exists (InventoryItem.mk "laptops" "Laptops" 5 30000 0 1707955200000),
         (InventoryItem.mk "laptops" "Laptops" (5 - 1) 30000 35000 1708387200000).
  split; [reflexivity|]. split; [reflexivity|].
  split; [now rewrite adjust_inventory_book|].
  split; [now rewrite derive_item_book|].
  repeat split. discriminate.
Qed.

(** C4, amended. A sale of a key that exists leaves [averageCost], and with
    it [id] and [name], as they were; it subtracts the quantity sold from
    [quantity], sets [sellingPrice] to the price of the line item and
    [lastUpdated] to the date of the transaction.  No other entry changes.
    In the client this is what the iteration leaves; on the server it is
    what the iteration saves, unless the entry found has an empty [id] or
    [name], when the save is rejected and nothing is written. *)
Theorem sale_keeps_cost_basis (div : Q → Q → Q) (m : gmap string InventoryItem.t)
    (t : Invoice.t) (item : LineItem.t) (found : InventoryItem.t) :
  Invoice.type t = SALE →
  m !! normalize (LineItem.description item) = Some found →
  let entry :=
    InventoryItem.mk (InventoryItem.id found) (InventoryItem.name found)
      (InventoryItem.quantity found - LineItem.quantity item)
      (InventoryItem.averageCost found)
      (LineItem.price item) (Invoice.date t) in
  App.derive_item div t m item = <[normalize (LineItem.description item) := entry]> m
  ∧ Server.adjust_inventory div t m item
    = (if Server.validates found
       then Some (<[normalize (LineItem.description item) := entry]> m) else None)
  ∧ (Server.validates found = true →
     Server.adjust_inventory div t m item = Some (App.derive_item div t m item))
  ∧ (∀ k, App.derive_item div t m item !! k
          = if decide (normalize (LineItem.description item) = k)
            then Some entry else m !! k)
  ∧ (∀ Inventory' k,
       Server.adjust_inventory div t m item = Some Inventory' →
       Inventory' !! k
       = if decide (normalize (LineItem.description item) = k)
         then Some entry else m !! k).
Proof.
  intros Ht Hm. cbv zeta.
  assert (B : book div t m item
              = <[normalize (LineItem.description item) :=
                    InventoryItem.mk (InventoryItem.id found) (InventoryItem.name found)
                      (InventoryItem.quantity found - LineItem.quantity item)
                      (InventoryItem.averageCost found)
                      (LineItem.price item) (Invoice.date t)]> m).
  { unfold book, entry_after. now rewrite Hm, Ht. }
  assert (Ec : App.derive_item div t m item = book div t m item)
    by now rewrite derive_item_book, Hm.
  assert (Es : Server.adjust_inventory div t m item
               = if Server.validates found then Some (book div t m item) else None)
    by now rewrite adjust_inventory_book, Hm.
  rewrite Es, Ec, B. split; [reflexivity|]. split; [reflexivity|].
  split; [now intros ->|]. split.
  - intros k. apply lookup_insert.
  - intros Inventory' k. destruct (Server.validates found); [|discriminate].
    intros [= <-]. apply lookup_insert.
Qed.

Lemma sale_keeps_cost_basis_witness :
  App.derive_item Qdiv seed_sale stock (LineItem.mk "i2" "Laptops" 1 35000)
  = <["laptops" :=
        InventoryItem.mk "laptops" "Laptops" (5 - 1) 30000 35000 1708387200000]> stock
  ∧ Server.adjust_inventory Qdiv seed_sale stock (LineItem.mk "i2" "Laptops" 1 35000)
    = Some (<["laptops" :=
                InventoryItem.mk "laptops" "Laptops" (5 - 1) 30000 35000 1708387200000]>
              stock)
  ∧ Server.adjust_inventory Qdiv seed_sale unnamed_stock
      (LineItem.mk "i2" "Laptops" 1 35000) = None.
Proof.
  destruct (sale_keeps_cost_basis Qdiv stock seed_sale (LineItem.mk "i2" "Laptops" 1 35000)
              (InventoryItem.mk "laptops" "Laptops" 5 30000 0 1707955200000)
              eq_refl eq_refl) as (Hc & Hs & _).
  destruct (sale_keeps_cost_basis Qdiv unnamed_stock seed_sale
              (LineItem.mk "i2" "Laptops" 1 35000)
              (InventoryItem.mk "laptops" EmptyString 5 30000 0 1707955200000)
              eq_refl eq_refl) as (_ & Hu & _).
  exact (conj Hc (conj Hs Hu)).
Defined.

(** An entry without a name comes to be stored through the inventory upsert,
    which validates nothing. *)
Example post_inventory_unvalidated :
  (Server.post_inventory Server.empty
     (InventoryItem.mk "laptops" EmptyString 5 30000 0 1707955200000)).1
  = Server.mkDb ∅ unnamed_stock.
Proof. reflexivity. Qed.




(** ** The guard of the division *)

Section Guard.
Variables div other : Q → Q → Q.

Lemma entry_after_guard t prior item :
  entry_after (guard_div div other) t prior item = entry_after div t prior item.
Proof.
  unfold entry_after, guard_div.
  destruct (Invoice.type t); [|reflexivity]. now destruct (Qgtb _ 0).
Qed.

Lemma book_guard t m item : book (guard_div div other) t m item = book div t m item.
Proof. unfold book. now rewrite entry_after_guard. Qed.

Lemma adjust_inventory_guard t m item :
  Server.adjust_inventory (guard_div div other) t m item
  = Server.adjust_inventory div t m item.
Proof. now rewrite !adjust_inventory_book, book_guard. Qed.

Lemma derive_item_guard t m item :
  App.derive_item (guard_div div other) t m item = App.derive_item div t m item.
Proof. now rewrite !derive_item_book, book_guard. Qed.

Lemma adjust_all_guard t items : ∀ m,
  Server.adjust_all (guard_div div other) t m items = Server.adjust_all div t m items.
Proof.
  induction items as [|item items IH]; intros m; simpl; [reflexivity|].
  rewrite adjust_inventory_guard.
  destruct (Server.adjust_inventory div t m item); [apply IH|reflexivity].
Qed.

Lemma post_transactions_guard db t :
  Server.post_transactions (guard_div div other) db t
  = Server.post_transactions div db t.
Proof. unfold Server.post_transactions. now rewrite adjust_all_guard. Qed.

Lemma foldl_derive_item_guard t items : ∀ m,
  foldl (App.derive_item (guard_div div other) t) m items
  = foldl (App.derive_item div t) m items.
Proof.
  induction items as [|item items IH]; intros m; simpl; [reflexivity|].
  now rewrite derive_item_guard, IH.
Qed.

Lemma deriveInventory_guard txns :
  App.deriveInventory (guard_div div other) txns = App.deriveInventory div txns.
Proof.
  unfold App.deriveInventory.
  generalize (∅ : gmap string InventoryItem.t).
  induction (sort _ txns) as [|t h IH]; intros m; simpl; [reflexivity|].
  now rewrite foldl_derive_item_guard, IH.
Qed.

End Guard.

(** C5. The purchase step divides only when the quantity after the update is
    strictly positive: replacing the quotient by any other one at divisors
    that are zero or negative changes no result of either implementation, so
    the fold never divides by zero or by a negative quantity; and when the
    resulting quantity is zero or negative the average cost stays at its
    prior value, in the entry that the client leaves and in the entry that
    the server saves (unless the save is rejected, when nothing is written,
    or the key is an inherited name without an entry in the client, when
    there is no entry). *)
Theorem purchase_division_guarded (div other : Q → Q → Q)
    (t : Invoice.t) (m : gmap string InventoryItem.t) (item : LineItem.t)
    (prior : InventoryItem.t) :
  Invoice.type t = PURCHASE →
  prior = match m !! normalize (LineItem.description item) with
          | Some found => found
          | None => InventoryItem.mk (normalize (LineItem.description item))
                      (LineItem.description item) 0 0 0 (Invoice.date t)
          end →
  ¬ (0 < InventoryItem.quantity prior + LineItem.quantity item)%Q →
  let entry :=
    InventoryItem.mk (InventoryItem.id prior) (InventoryItem.name prior)
      (InventoryItem.quantity prior + LineItem.quantity item)
      (InventoryItem.averageCost prior) (InventoryItem.sellingPrice prior)
      (Invoice.date t) in
  (∀ t' m' item', Server.adjust_inventory (guard_div div other) t' m' item'
                  = Server.adjust_inventory div t' m' item')
  ∧ (∀ t' m' item', App.derive_item (guard_div div other) t' m' item'
                    = App.derive_item div t' m' item')
  ∧ (∀ db t', Server.post_transactions (guard_div div other) db t'
              = Server.post_transactions div db t')
  ∧ (∀ transactions, App.deriveInventory (guard_div div other) transactions
                     = App.deriveInventory div transactions)
  ∧ Server.adjust_inventory div t m item
    = (if Server.validates prior
       then Some (<[normalize (LineItem.description item) := entry]> m) else None)
  ∧ App.derive_item div t m item
    = (if App.truthy m (normalize (LineItem.description item))
          && bool_decide (m !! normalize (LineItem.description item) = None)
       then m
       else <[normalize (LineItem.description item) := entry]> m).
Proof.
  intros Ht Hprior Hq. cbv zeta.
  assert (B : book div t m item
              = <[normalize (LineItem.description item) :=
                    InventoryItem.mk (InventoryItem.id prior) (InventoryItem.name prior)
                      (InventoryItem.quantity prior + LineItem.quantity item)
                      (InventoryItem.averageCost prior) (InventoryItem.sellingPrice prior)
                      (Invoice.date t)]> m).
  { unfold book, entry_after, new_entry. rewrite Ht.
    assert (E : default
                  (InventoryItem.mk (normalize (LineItem.description item))
                     (LineItem.description item) 0 0 0 (Invoice.date t))
                  (m !! normalize (LineItem.description item)) = prior).
    { rewrite Hprior. now destruct (m !! _). }
    rewrite E. destruct (Qgtb _ 0) eqn:G; [|reflexivity].
    apply Qgtb_lt in G. contradiction. }
  split; [apply adjust_inventory_guard|]. split; [apply derive_item_guard|].
  split; [apply post_transactions_guard|]. split; [apply deriveInventory_guard|].
  split.
  - rewrite adjust_inventory_book, B. unfold new_entry. rewrite Hprior.
    now destruct (m !! _).
  - rewrite derive_item_book, B. unfold App.truthy.
    destruct (m !! _); simpl; [reflexivity|].
    now destruct (App.inherited _).
Qed.

Lemma purchase_division_guarded_witness :
  ¬ (0 < -7 + 3)%Q
  ∧ Server.adjust_inventory Qdiv restock oversold (LineItem.mk "i4" " laptops" 3 40000)
    = Some (<["laptops" :=
                InventoryItem.mk "laptops" "Laptops" (-7 + 3) 30000 35000 1709000000000]>
              oversold)
  ∧ App.derive_item Qdiv restock oversold (LineItem.mk "i4" " laptops" 3 40000)
    = <["laptops" :=
          InventoryItem.mk "laptops" "Laptops" (-7 + 3) 30000 35000 1709000000000]>
        oversold
  ∧ (∀ transactions, App.deriveInventory (guard_div Qdiv (λ _ _, 1%Q)) transactions
                     = App.deriveInventory Qdiv transactions).
Proof.
  assert (Hq : ¬ (0 < -7 + 3)%Q) by (vm_compute; discriminate).
  destruct (purchase_division_guarded Qdiv (λ _ _, 1%Q) restock oversold
              (LineItem.mk "i4" " laptops" 3 40000)
              (InventoryItem.mk "laptops" "Laptops" (-7) 30000 35000 1708387200000)
              eq_refl eq_refl Hq) as (_ & _ & _ & Hd & Es & Ec).
  exact (conj Hq (conj Es (conj Ec Hd))).
Defined.

(** ** Submitting twice, deleting *)

(** C6, as stated for every submission, fails.  The purchase with a blank
    line is answered with an error after its first line was booked, and is
    not stored; submitted again, it is taken for new, and its first line is
    booked a second time. *)
Lemma resubmission_counterexample :
  let once := Server.post_transactions Qdiv Server.empty purchase_with_blank_line in
  let twice := Server.post_transactions Qdiv once.1 purchase_with_blank_line in
  once.2 = Server.error_500
  ∧ Server.Transaction once.1 !! "6" = None
  ∧ InventoryItem.quantity <$> Server.Inventory once.1 !! "laptops" = Some (0 + 5)%Q
  ∧ InventoryItem.quantity <$> Server.Inventory twice.1 !! "laptops" = Some (0 + 5 + 5)%Q
  ∧ twice.1 ≠ once.1.
Proof.
  cbv zeta. repeat split.
  intros H.
  apply (f_equal (λ db, InventoryItem.quantity <$> Server.Inventory db !! "laptops")) in H.
  vm_compute in H. discriminate H.
Qed.

(** C6, amended. When a submission is answered with the stored record,
    submitting the transaction a second time, with the same id and the same
    content, leaves the database as the first submission left it and is
    answered as the first: the record of the transaction is replaced by an
    identical one and the inventory is not adjusted again.  When a
    submission is answered with an error, the transaction is not stored, and
    the second submission runs the loop over the line items again, on the
    inventory that the first one left; it is answered with an error again,
    and the transaction is still not stored. *)
Theorem post_transactions_idempotent (div : Q → Q → Q) (db : Server.Db)
    (transaction : Invoice.t) :
  let once := Server.post_transactions div db transaction in
  let twice := Server.post_transactions div once.1 transaction in
  match once.2 with
  | Server.ok saved =>
      twice.1 = once.1
      ∧ twice.2 = once.2
      ∧ Server.Transaction twice.1 !! Invoice.id transaction = Some saved
  | Server.error_500 =>
      Server.Transaction db !! Invoice.id transaction = None
      ∧ Server.Transaction once.1 = Server.Transaction db
      ∧ Server.Inventory once.1
        = (Server.adjust_all div transaction (Server.Inventory db)
             (Invoice.items transaction)).1
      ∧ twice.2 = Server.error_500
      ∧ Server.Transaction twice.1 = Server.Transaction db
      ∧ Server.Inventory twice.1
        = (Server.adjust_all div transaction (Server.Inventory once.1)
             (Invoice.items transaction)).1
  end.
Proof.
  cbv zeta.
  destruct (Server.Transaction db !! Invoice.id transaction) as [stored|] eqn:E.
  - rewrite (post_transactions_existing div db transaction stored E). cbn [fst snd].
    rewrite (post_transactions_existing div _ transaction
               (Server.findOneAndUpdate (Some stored) transaction))
      by apply lookup_insert_eq.
    cbn [fst snd Server.Transaction Server.Inventory].
    rewrite (findOneAndUpdate_again (Some stored)), insert_insert_eq.
    repeat split. apply lookup_insert_eq.
  - rewrite (post_transactions_new div db transaction E).
    destruct (Server.adjust_all div transaction (Server.Inventory db)
                (Invoice.items transaction)) as [Inventory' [|]] eqn:Ea;
      cbn [fst snd].
    + rewrite (post_transactions_existing div _ transaction transaction)
        by apply lookup_insert_eq.
      cbn [fst snd Server.Transaction Server.Inventory].
      rewrite (findOneAndUpdate_again None transaction
                 : Server.findOneAndUpdate (Some transaction) transaction = transaction).
      rewrite insert_insert_eq.
      repeat split. apply lookup_insert_eq.
    + cbn [Server.Transaction Server.Inventory].
      split; [reflexivity|]. split; [reflexivity|]. split; [reflexivity|].
      rewrite (post_transactions_new div (Server.mkDb _ _) transaction E).
      cbn [Server.Transaction Server.Inventory].
      pose proof (adjust_all_false_again div transaction (Invoice.items transaction)
                    (Server.Inventory db)) as Hagain.
      rewrite Ea in Hagain. cbn [fst snd] in Hagain. rewrite (Hagain eq_refl).
      now repeat split.
Qed.

Lemma post_transactions_idempotent_witness :
  (let once := Server.post_transactions Qdiv Server.empty seed_purchase in
   let twice := Server.post_transactions Qdiv once.1 seed_purchase in
   once.2 = Server.ok seed_purchase
   ∧ twice.1 = once.1
   ∧ twice.2 = once.2
   ∧ InventoryItem.quantity <$> Server.Inventory twice.1 !! "laptops" = Some (0 + 5)%Q)
  ∧ (let once := Server.post_transactions Qdiv Server.empty purchase_with_blank_line in
     let twice := Server.post_transactions Qdiv once.1 purchase_with_blank_line in
     once.2 = Server.error_500
     ∧ twice.2 = Server.error_500
     ∧ Server.Transaction twice.1 = ∅).
Proof.
  cbv zeta.
  pose proof (post_transactions_idempotent Qdiv Server.empty seed_purchase) as H.
  pose proof (post_transactions_idempotent Qdiv Server.empty purchase_with_blank_line)
    as H'.
  cbv zeta in H, H'.
  assert (E : (Server.post_transactions Qdiv Server.empty seed_purchase).2
              = Server.ok seed_purchase) by reflexivity.
  assert (E' : (Server.post_transactions Qdiv Server.empty purchase_with_blank_line).2
               = Server.error_500) by reflexivity.
  rewrite E in H. destruct H as (H1 & H2 & _).
  rewrite E' in H'. destruct H' as (_ & _ & _ & H3 & H4 & _).
  split.
  - split; [exact E|]. split; [exact H1|]. split; [now rewrite H2|].
    now rewrite H1.
  - split; [exact E'|]. split; [exact H3|exact H4].
Defined.

(** C7. Deleting a transaction by id removes its record, and no other, from
    the transaction store; it answers with success whether or not a record
    had the id, in which case the database is unchanged, so that deleting
    twice is deleting once; and the inventory store is left as it was. *)
Theorem delete_transactions_frame (db : Server.Db) (id : string) :
  let result := Server.delete_transactions db id in
  Server.Transaction result.1 !! id = None
  ∧ (∀ j, Server.Transaction result.1 !! j
          = if decide (id = j) then None else Server.Transaction db !! j)
  ∧ Server.Inventory result.1 = Server.Inventory db
  ∧ result.2 = Server.mkDeleteResponse true
  ∧ (is_Some (Server.Transaction db !! id) ∨ result.1 = db)
  ∧ Server.delete_transactions result.1 id = result.
Proof.
  simpl. split; [apply lookup_delete_eq|]. split; [intros j; apply lookup_delete|].
  split; [reflexivity|]. split; [reflexivity|]. split.
  - destruct (Server.Transaction db !! id) as [t|] eqn:E; [left; eauto|right].
    destruct db as [T I]. simpl in *. now rewrite delete_id.
  - unfold Server.delete_transactions. simpl. now rewrite delete_delete_eq.
Qed.

(** ** The ledger as a fold over line items *)

Section Lines.
Variable div : Q → Q → Q.

(** The step of the ledger on a line item with its transaction. *)
Local Abbreviation step :=
  (λ (m : gmap string InventoryItem.t) (line : Invoice.t * LineItem.t),
     book div line.1 m line.2).

Lemma foldl_book_lines t items : ∀ m,
  foldl (book div t) m items = foldl step m ((λ item, (t, item)) <$> items).
Proof. induction items as [|item items IH]; intros m; simpl; [reflexivity|apply IH]. Qed.

Lemma filter_lines (f : Invoice.t * LineItem.t → bool) t items :
  List.filter f ((λ item, (t, item)) <$> items)
  = (λ item, (t, item)) <$> List.filter (λ item, f (t, item)) items.
Proof.
  induction items as [|item items IH]; [reflexivity|].
  rewrite fmap_cons. cbn [List.filter]. rewrite IH.
  now destruct (f (t, item)).
Qed.

Lemma find_lines k t items :
  (λ line : Invoice.t * LineItem.t, LineItem.description line.2)
    <$> List.find (filed_under k) ((λ item, (t, item)) <$> items)
  = LineItem.description
      <$> List.find (λ item, bool_decide (normalize (LineItem.description item) = k)) items.
Proof.
  induction items as [|item items IH]; [reflexivity|].
  rewrite fmap_cons. cbn [List.find]. unfold filed_under at 1. cbn [snd].
  now destruct (bool_decide _).
Qed.

Lemma find_app_first {A : Type} (P : A → bool) (l1 l2 : list A) :
  List.find P (l1 ++ l2)
  = match List.find P l1 with Some x => Some x | None => List.find P l2 end.
Proof. induction l1 as [|x l1 IH]; simpl; [reflexivity|]. now destruct (P x). Qed.

Lemma filter_snoc {A : Type} (f : A → bool) l x :
  List.filter f (l ++ [x]) = (List.filter f l ++ if f x then [x] else [])%list.
Proof. rewrite List.filter_app. simpl. now destruct (f x). Qed.

(** *** Names *)

(** Writing the entry of a line item never changes the name of an entry
    that exists, and names a new entry after the description as written. *)
Lemma book_name t m item k :
  InventoryItem.name <$> (book div t m item !! k)
  = match m !! k with
    | Some found => Some (InventoryItem.name found)
    | None =>
        if decide (normalize (LineItem.description item) = k)
        then Some (LineItem.description item) else None
    end.
Proof.
  destruct (decide (normalize (LineItem.description item) = k)) as [<-|Hne].
  - rewrite book_eq. now destruct (m !! _).
  - rewrite book_ne by assumption. now destruct (m !! k).
Qed.

Lemma foldl_step_name lines : ∀ m k,
  InventoryItem.name <$> (foldl step m lines !! k)
  = match m !! k with
    | Some found => Some (InventoryItem.name found)
    | None =>
        (λ line : Invoice.t * LineItem.t, LineItem.description line.2)
          <$> List.find (filed_under k) lines
    end.
Proof.
  induction lines as [|[t item] lines IH]; intros m k; simpl.
  - now destruct (m !! k).
  - rewrite IH. pose proof (book_name t m item k) as H.
    unfold filed_under at 2. cbn [snd].
    destruct (m !! k) as [found|] eqn:Hm.
    + destruct (book div t m item !! k) as [entry|]; [|discriminate].
      simpl in H. exact H.
    + destruct (decide (normalize (LineItem.description item) = k)) as [Hk|Hk].
      * rewrite (bool_decide_eq_true_2 _ Hk).
        destruct (book div t m item !! k) as [entry|]; [|discriminate].
        simpl in H. exact H.
      * rewrite (bool_decide_eq_false_2 _ Hk).
        destruct (book div t m item !! k) as [entry|]; [discriminate|].
        reflexivity.
Qed.

(** *** Dates and selling prices *)

Lemma book_lastUpdated t m item :
  InventoryItem.lastUpdated <$> (book div t m item !! normalize (LineItem.description item))
  = Some (Invoice.date t).
Proof. now rewrite book_eq. Qed.

Lemma book_sellingPrice t m item :
  InventoryItem.sellingPrice
    <$> (book div t m item !! normalize (LineItem.description item))
  = Some match Invoice.type t with
         | SALE => LineItem.price item
         | PURCHASE =>
             default 0%Q (InventoryItem.sellingPrice
                            <$> m !! normalize (LineItem.description item))
         end.
Proof.
  rewrite book_eq. unfold entry_after, new_entry. simpl.
  destruct (Invoice.type t); [|reflexivity]. now destruct (m !! _).
Qed.

Lemma foldl_step_lastUpdated lines m k :
  InventoryItem.lastUpdated <$> (foldl step m lines !! k)
  = match last (List.filter (filed_under k) lines) with
    | Some line => Some (Invoice.date line.1)
    | None => InventoryItem.lastUpdated <$> m !! k
    end.
Proof.
  induction lines as [|[t item] lines IH] using rev_ind; [reflexivity|].
  rewrite foldl_app, filter_snoc. simpl.
  change (filed_under k (t, item))
    with (bool_decide (normalize (LineItem.description item) = k)).
  case_bool_decide as Hk.
  - rewrite last_snoc. simpl. rewrite <- Hk. apply book_lastUpdated.
  - rewrite app_nil_r, book_ne by assumption. exact IH.
Qed.

Lemma filter_sold_nil k lines :
  last (List.filter (filed_under k) lines) = None →
  List.filter (sold_under k) lines = [].
Proof.
  rewrite last_None. induction lines as [|line lines IH]; simpl; [reflexivity|].
  unfold sold_under at 1. destruct (filed_under k line); simpl; [discriminate|exact IH].
Qed.

Lemma foldl_step_sellingPrice lines m k :
  InventoryItem.sellingPrice <$> (foldl step m lines !! k)
  = match last (List.filter (filed_under k) lines) with
    | Some _ =>
        Some match last (List.filter (sold_under k) lines) with
             | Some line => LineItem.price line.2
             | None => default 0%Q (InventoryItem.sellingPrice <$> m !! k)
             end
    | None => InventoryItem.sellingPrice <$> m !! k
    end.
Proof.
  induction lines as [|[t item] lines IH] using rev_ind; [reflexivity|].
  rewrite foldl_app, !filter_snoc. simpl.
  change (sold_under k (t, item))
    with (filed_under k (t, item)
          && match Invoice.type t with SALE => true | PURCHASE => false end).
  change (filed_under k (t, item))
    with (bool_decide (normalize (LineItem.description item) = k)).
  case_bool_decide as Hk; simpl.
  - rewrite last_snoc. subst k. rewrite book_sellingPrice. f_equal.
    destruct (Invoice.type t); [|now rewrite last_snoc].
    rewrite app_nil_r, IH.
    destruct (last (List.filter (filed_under _) lines)) eqn:E; [reflexivity|].
    now rewrite (filter_sold_nil _ _ E).
  - rewrite !app_nil_r, book_ne by assumption. exact IH.
Qed.

(** *** Keys *)

Lemma foldl_step_dom lines : ∀ m,
  dom (foldl step m lines)
  = list_to_set ((λ line : Invoice.t * LineItem.t, normalize (LineItem.description line.2))
                   <$> lines) ∪ dom m.
Proof.
  induction lines as [|[t item] lines IH]; intros m; simpl.
  - now rewrite (left_id_L ∅ (∪)).
  - rewrite IH. unfold book. rewrite dom_insert_L. apply set_eq. intros x.
    rewrite !elem_of_union, elem_of_singleton. tauto.
Qed.

Lemma book_keyed t m item : inventory_keyed m → inventory_keyed (book div t m item).
Proof.
  intros Hm k entry. unfold book. rewrite lookup_insert.
  case_decide as Hk; [|apply Hm]. intros [= <-]. simpl. subst k.
  destruct (m !! _) as [found|] eqn:E; [now apply Hm|reflexivity].
Qed.

Lemma foldl_step_keyed lines : ∀ m,
  inventory_keyed m → inventory_keyed (foldl step m lines).
Proof.
  induction lines as [|[t item] lines IH]; intros m Hm; simpl; [exact Hm|].
  now apply IH, book_keyed.
Qed.

(** *** The client *)

Lemma no_inherited_empty : no_inherited ∅.
Proof. intros k _. apply lookup_empty. Qed.

(** On an inventory of the client, an iteration writes the entry of the line
    item unless the key is an inherited name. *)
Lemma derive_item_own t m item :
  no_inherited m →
  App.derive_item div t m item
  = (if App.inherited (normalize (LineItem.description item)) then m
     else book div t m item)
  ∧ no_inherited (App.derive_item div t m item).
Proof.
  intros Hm. rewrite derive_item_book.
  destruct (App.inherited (normalize (LineItem.description item))) eqn:Hi.
  - rewrite (Hm _ Hi). now split.
  - assert (E : match m !! normalize (LineItem.description item) with
                | Some _ => book div t m item
                | None => book div t m item
                end = book div t m item) by now destruct (m !! _).
    rewrite E. split; [reflexivity|]. intros k Hk. rewrite book_ne; [now apply Hm|].
    intros Heq. rewrite Heq in Hi. congruence.
Qed.

Lemma foldl_derive_item_lines t items : ∀ m,
  no_inherited m →
  foldl (App.derive_item div t) m items
  = foldl step m (List.filter own_line ((λ item, (t, item)) <$> items))
  ∧ no_inherited (foldl (App.derive_item div t) m items).
Proof.
  induction items as [|item items IH]; intros m Hm; [now split|].
  rewrite fmap_cons. cbn [List.filter foldl]. unfold own_line at 1. cbn [snd].
  destruct (derive_item_own t m item Hm) as [E Hm'].
  destruct (IH _ Hm') as [IH1 IH2]. split; [|exact IH2].
  rewrite IH1, E. now destruct (App.inherited _).
Qed.

Lemma foldl_transactions_lines h : ∀ m,
  no_inherited m →
  foldl (λ newInventory inv,
           foldl (App.derive_item div inv) newInventory (Invoice.items inv)) m h
  = foldl step m (List.filter own_line (line_items h))
  ∧ no_inherited
      (foldl (λ newInventory inv,
                foldl (App.derive_item div inv) newInventory (Invoice.items inv)) m h).
Proof.
  unfold line_items.
  induction h as [|t h IH]; intros m Hm; [now split|].
  cbn [foldl flat_map]. rewrite List.filter_app, foldl_app.
  destruct (foldl_derive_item_lines t (Invoice.items t) m Hm) as [E Hm'].
  destruct (IH _ Hm') as [IH1 IH2]. split; [|exact IH2].
  now rewrite IH1, E.
Qed.

(** The inventory that the client derives is the fold of the step over the
    line items of its transactions, in order of date, without the line
    items that fall on an inherited name. *)
Lemma deriveInventory_lines transactions :
  App.deriveInventory div transactions
  = foldl step ∅
      (List.filter own_line
         (line_items (sort (λ a b, Invoice.date a - Invoice.date b)%Z transactions))).
Proof. unfold App.deriveInventory. now apply foldl_transactions_lines, no_inherited_empty. Qed.

Lemma filter_filed_own k lines :
  App.inherited k = false →
  List.filter (filed_under k) (List.filter own_line lines)
  = List.filter (filed_under k) lines.
Proof.
  intros Hk. induction lines as [|line lines IH]; [reflexivity|].
  cbn [List.filter]. destruct (own_line line) eqn:Ho; cbn [List.filter]; rewrite IH.
  - reflexivity.
  - unfold filed_under at 2. case_bool_decide as Hl; [|reflexivity].
    unfold own_line in Ho. rewrite Hl, Hk in Ho. discriminate.
Qed.

Lemma filter_sold_own k lines :
  App.inherited k = false →
  List.filter (sold_under k) (List.filter own_line lines)
  = List.filter (sold_under k) lines.
Proof.
  intros Hk. induction lines as [|line lines IH]; [reflexivity|].
  cbn [List.filter]. destruct (own_line line) eqn:Ho; cbn [List.filter]; rewrite IH.
  - reflexivity.
  - unfold sold_under at 2, filed_under. case_bool_decide as Hl; [|reflexivity].
    unfold own_line in Ho. rewrite Hl, Hk in Ho. discriminate.
Qed.

Lemma find_filed_own k lines :
  App.inherited k = false →
  List.find (filed_under k) (List.filter own_line lines)
  = List.find (filed_under k) lines.
Proof.
  intros Hk. induction lines as [|line lines IH]; [reflexivity|].
  cbn [List.filter List.find]. destruct (own_line line) eqn:Ho; cbn [List.find]; rewrite IH.
  - reflexivity.
  - unfold filed_under at 2. case_bool_decide as Hl; [|reflexivity].
    unfold own_line in Ho. rewrite Hl, Hk in Ho. discriminate.
Qed.

Lemma deriveInventory_no_inherited transactions k :
  App.inherited k = true → App.deriveInventory div transactions !! k = None.
Proof.
  intros Hk. unfold App.deriveInventory.
  now apply (foldl_transactions_lines _ ∅ no_inherited_empty).
Qed.

(** *** The loop of the server *)

Lemma adjust_all_name t items m k :
  match m !! k with
  | Some found =>
      InventoryItem.name <$> ((Server.adjust_all div t m items).1 !! k)
      = Some (InventoryItem.name found)
  | None =>
      ∀ entry,
        (Server.adjust_all div t m items).1 !! k = Some entry →
        LineItem.description
          <$> List.find (λ item, bool_decide (normalize (LineItem.description item) = k))
                items
        = Some (InventoryItem.name entry)
  end.
Proof.
  destruct (adjust_all_booked div t items m) as (booked & rest & -> & _ & E & _).
  rewrite E, foldl_book_lines.
  pose proof (foldl_step_name ((λ item, (t, item)) <$> booked) m k) as H.
  destruct (m !! k) as [found|]; [exact H|].
  intros entry He. rewrite He, find_lines in H. simpl in H.
  rewrite find_app_first.
  destruct (List.find _ booked) as [item|]; [now rewrite H|discriminate].
Qed.

Lemma adjust_all_name_ok t items m k :
  (Server.adjust_all div t m items).2 = true →
  InventoryItem.name <$> ((Server.adjust_all div t m items).1 !! k)
  = match m !! k with
    | Some found => Some (InventoryItem.name found)
    | None =>
        LineItem.description
          <$> List.find (λ item, bool_decide (normalize (LineItem.description item) = k))
                items
    end.
Proof.
  intros Hok. rewrite (adjust_all_true div t items m Hok), foldl_book_lines.
  rewrite foldl_step_name. now rewrite find_lines.
Qed.

Lemma post_transactions_name_kept db t k found :
  Server.Inventory db !! k = Some found →
  InventoryItem.name <$> (Server.Inventory (Server.post_transactions div db t).1 !! k)
  = Some (InventoryItem.name found).
Proof.
  intros Hk. unfold Server.post_transactions.
  destruct (Server.Transaction db !! Invoice.id t); cbn [fst snd].
  - cbn [Server.Inventory]. now rewrite Hk.
  - pose proof (adjust_all_name t (Invoice.items t) (Server.Inventory db) k) as H.
    rewrite Hk in H.
    now destruct (Server.adjust_all div t (Server.Inventory db) (Invoice.items t)) as [? [|]].
Qed.

Lemma submit_all_name h : ∀ db k found,
  Server.Inventory db !! k = Some found →
  InventoryItem.name <$> (Server.Inventory (Server.submit_all div db h) !! k)
  = Some (InventoryItem.name found).
Proof.
  induction h as [|t h IH]; intros db k found Hk; simpl.
  - now rewrite Hk.
  - pose proof (post_transactions_name_kept db t k found Hk) as H.
    destruct (Server.Inventory (Server.post_transactions div db t).1 !! k)
      as [entry|] eqn:E; [|discriminate].
    injection H as <-. unfold Server.submit_all in *. simpl.
    now apply IH.
Qed.

End Lines.

(** ** The display name *)



(** ** The product key *)



(** The key of some descriptions: white space and case go, white space
    inside the description stays; a no-break space is white space, and the
    capital letters beyond [Z] have a lower case ("É", U+00C9, has "é",
    U+00E9). *)
Example normalize_examples :
  normalize "  LapTop " = "laptop"
  ∧ normalize " USB  Cable" = "usb  cable"
  ∧ normalize "   " = EmptyString
  ∧ normalize (String (ascii_of_N 160) (String (ascii_of_N 201) "clair "))
    = String (ascii_of_N 233) "clair"
  ∧ normalize "Laptop" ≠ normalize "Laptops"
  ∧ normalize "Lap top" ≠ normalize "Laptop".
Proof. repeat split; discriminate. Qed.

(** ** The scenario of the specification *)

Example scenario_after_purchase :
  Server.Inventory (Server.submit_all Qdiv Server.empty (take 1 scenario)) !! "laptop"
  = Some (InventoryItem.mk "laptop" "Laptop" (0 + 5) ((0 * 0 + 5 * 30000) / (0 + 5)) 0 1).
Proof. reflexivity. Qed.

Example scenario_after_sale :
  ∃ entry,
    Server.Inventory (Server.submit_all Qdiv Server.empty scenario) !! "laptop"
      = Some entry
    ∧ App.deriveInventory Qdiv scenario !! "laptop" = Some entry
    ∧ InventoryItem.name entry = "Laptop"
    ∧ (InventoryItem.quantity entry == 4)%Q
    ∧ (InventoryItem.averageCost entry == 30000)%Q
    ∧ (InventoryItem.sellingPrice entry == 35000)%Q.
Proof.
  eexists. split; [vm_compute; reflexivity|].
  split; [vm_compute; reflexivity|]. repeat split.
Qed.

(** * Further properties of the ledger *)

Section LedgerKeys.
Variable div : Q → Q → Q.

Local Abbreviation key_of := (λ item : LineItem.t, normalize (LineItem.description item)).

Lemma elem_of_line_items h t item :
  (t, item) ∈ line_items h ↔ t ∈ h ∧ item ∈ Invoice.items t.
Proof.
  unfold line_items. rewrite list_elem_of_In, List.in_flat_map. split.
  - intros (t' & Ht' & Hin). apply list_elem_of_In, list_elem_of_fmap in Hin
      as (item' & [= -> ->] & Hitem). split; [now apply list_elem_of_In|exact Hitem].
  - intros [Ht Hitem]. exists t. split; [now apply list_elem_of_In|].
    apply list_elem_of_In, list_elem_of_fmap. now exists item.
Qed.

Lemma elem_of_keys_of h k :
  k ∈ keys_of h ↔ ∃ t item, t ∈ h ∧ item ∈ Invoice.items t ∧ key_of item = k.
Proof.
  unfold keys_of. rewrite elem_of_list_to_set, list_elem_of_fmap. split.
  - intros (item & -> & Hin). apply list_elem_of_In, List.in_flat_map in Hin
      as (t & Ht & Hitem). exists t, item.
    split; [now apply list_elem_of_In|]. split; [now apply list_elem_of_In|reflexivity].
  - intros (t & item & Ht & Hitem & <-). exists item. split; [reflexivity|].
    apply list_elem_of_In, List.in_flat_map. exists t.
    split; now apply list_elem_of_In.
Qed.

Lemma keys_of_Permutation h h' : Permutation h h' → keys_of h = keys_of h'.
Proof.
  intros Hp. apply set_eq. intros k. rewrite !elem_of_keys_of.
  split; intros (t & item & Ht & H); exists t, item; split; try exact H.
  - now rewrite <- Hp.
  - now rewrite Hp.
Qed.

End LedgerKeys.

(** X3. The client derives one entry for each key of the line items of its
    transactions that is not an inherited name, and no other; each entry
    carries its key as [id], and each key is in normal form. *)
Theorem derived_keys (div : Q → Q → Q) (transactions : list Invoice.t) :
  (∀ k, k ∈ dom (App.deriveInventory div transactions)
        ↔ k ∈ keys_of transactions ∧ App.inherited k = false)
  ∧ inventory_keyed (App.deriveInventory div transactions)
  ∧ (∀ k, k ∈ dom (App.deriveInventory div transactions) → normalize k = k).
Proof.
  assert (Hd : ∀ k, k ∈ dom (App.deriveInventory div transactions)
                    ↔ k ∈ keys_of transactions ∧ App.inherited k = false).
  { intros k. rewrite deriveInventory_lines, foldl_step_dom, dom_empty_L.
    rewrite (right_id_L ∅ (∪)), elem_of_list_to_set, list_elem_of_fmap.
    rewrite <- (keys_of_Permutation _ _
                  (sort_Permutation (λ a b, Invoice.date a - Invoice.date b)%Z transactions)).
    rewrite elem_of_keys_of. split.
    - intros ([t item] & -> & Hin).
      apply list_elem_of_In, List.filter_In in Hin as [Hin Ho].
      apply list_elem_of_In, elem_of_line_items in Hin as [Ht Hitem]. split.
      + now exists t, item.
      + unfold own_line in Ho. now apply negb_true_iff in Ho.
    - intros [(t & item & Ht & Hitem & <-) Hi]. exists (t, item).
      split; [reflexivity|]. apply list_elem_of_In, List.filter_In. split.
      + now apply list_elem_of_In, elem_of_line_items.
      + unfold own_line. simpl. now rewrite Hi. }
  split; [exact Hd|]. split.
  - rewrite deriveInventory_lines. apply foldl_step_keyed.
    intros k entry. now rewrite lookup_empty.
  - intros k [(t & item & _ & _ & <-)%elem_of_keys_of _]%Hd. apply normalize_idemp.
Qed.

Lemma derived_keys_witness :
  "laptops" ∈ dom (App.deriveInventory Qdiv [constructor_purchase; seed_purchase])
  ∧ "constructor" ∈ keys_of [constructor_purchase; seed_purchase]
  ∧ "constructor" ∉ dom (App.deriveInventory Qdiv [constructor_purchase; seed_purchase]).
Proof.
  destruct (derived_keys Qdiv [constructor_purchase; seed_purchase]) as (Hd & _ & _).
  assert (Hl : "laptops" ∈ keys_of [constructor_purchase; seed_purchase]).
  { apply (bool_decide_unpack _). vm_compute. exact I. }
  assert (Hc : "constructor" ∈ keys_of [constructor_purchase; seed_purchase]).
  { apply (bool_decide_unpack _). vm_compute. exact I. }
  split; [apply Hd; now split|]. split; [exact Hc|].
  intros [_ Hi]%Hd. discriminate Hi.
Defined.

(** X4. A submission changes no entry of the inventory other than those of
    the keys of its own line items, removes no entry, and leaves the records
    of the other transactions as they were; the record of its own id is the
    one it answers with, or is left as it was when the answer is an
    error. *)
Theorem post_transactions_frame (div : Q → Q → Q) (db : Server.Db)
    (transaction : Invoice.t) :
  (∀ k, k ∉ keys_of [transaction] →
        Server.Inventory (Server.post_transactions div db transaction).1 !! k
        = Server.Inventory db !! k)
  ∧ dom (Server.Inventory db)
      ⊆ dom (Server.Inventory (Server.post_transactions div db transaction).1)
  ∧ (∀ j, Server.Transaction (Server.post_transactions div db transaction).1 !! j
          = match (Server.post_transactions div db transaction).2 with
            | Server.ok saved =>
                if decide (Invoice.id transaction = j) then Some saved
                else Server.Transaction db !! j
            | Server.error_500 => Server.Transaction db !! j
            end).
Proof.
  rewrite post_transactions_Inventory, post_transactions_Transaction.
  split; [|split].
  - intros k Hk. destruct (Server.Transaction db !! _); [reflexivity|].
    apply adjust_all_frame.
    unfold keys_of in Hk. simpl in Hk. now rewrite app_nil_r in Hk.
  - destruct (Server.Transaction db !! _); [reflexivity|]. apply adjust_all_dom.
  - intros j. destruct (Server.post_transactions div db transaction).2; [|reflexivity].
    apply lookup_insert.
Qed.

Lemma post_transactions_frame_witness :
  Server.Inventory (Server.post_transactions Qdiv (Server.mkDb ∅ stock) mouse_sale).1
    !! "laptops" = stock !! "laptops"
  ∧ dom stock
      ⊆ dom (Server.Inventory
               (Server.post_transactions Qdiv (Server.mkDb ∅ stock) mouse_sale).1)
  ∧ Server.Transaction (Server.post_transactions Qdiv (Server.mkDb ∅ stock) mouse_sale).1
      !! "5" = Some mouse_sale.
Proof.
  assert (Hk : "laptops" ∉ keys_of [mouse_sale]).
  { apply (bool_decide_unpack _). vm_compute. exact I. }
  destruct (post_transactions_frame Qdiv (Server.mkDb ∅ stock) mouse_sale)
    as (H1 & H2 & H3).
  exact (conj (H1 "laptops" Hk) (conj H2 (H3 "5"))).
Defined.

(** X5. The client derives the same inventory from any arrangement of its
    list of transactions, provided no two of them have the same business
    date. *)
Theorem deriveInventory_any_order (div : Q → Q → Q) (transactions arranged : list Invoice.t) :
  Permutation transactions arranged →
  NoDup (Invoice.date <$> transactions) →
  App.deriveInventory div arranged = App.deriveInventory div transactions.
Proof.
  intros Hp Hnd. unfold App.deriveInventory.
  now rewrite (sort_Permutation_distinct Invoice.date transactions arranged Hp Hnd).
Qed.

Lemma deriveInventory_any_order_witness :
  App.deriveInventory Qdiv [seed_sale; early_sale; seed_purchase]
  = App.deriveInventory Qdiv [seed_purchase; seed_sale; early_sale].
Proof.
  apply (deriveInventory_any_order Qdiv [seed_purchase; seed_sale; early_sale]
           [seed_sale; early_sale; seed_purchase]).
  - change [seed_sale; early_sale; seed_purchase]
      with (([seed_sale; early_sale] ++ [seed_purchase])%list).
    apply (Permutation_cons_append [seed_sale; early_sale] seed_purchase).
  - apply (bool_decide_unpack _). vm_compute. exact I.
Defined.

(** * Quantities *)

Section Quantities.
Variable div : Q → Q → Q.

Local Abbreviation step :=
  (λ (m : gmap string InventoryItem.t) (line : Invoice.t * LineItem.t),
     book div line.1 m line.2).

Lemma running_quantity_snoc start lines line :
  running_quantity start (lines ++ [line])
  = match Invoice.type line.1 with
    | PURCHASE => (running_quantity start lines + LineItem.quantity line.2)%Q
    | SALE => (running_quantity start lines - LineItem.quantity line.2)%Q
    end.
Proof. unfold running_quantity. now rewrite foldl_app. Qed.

Lemma book_quantity t m item :
  InventoryItem.quantity
    <$> (book div t m item !! normalize (LineItem.description item))
  = Some match Invoice.type t with
         | PURCHASE =>
             (default 0 (InventoryItem.quantity
                           <$> m !! normalize (LineItem.description item))
              + LineItem.quantity item)%Q
         | SALE =>
             (default 0 (InventoryItem.quantity
                           <$> m !! normalize (LineItem.description item))
              - LineItem.quantity item)%Q
         end.
Proof.
  rewrite book_eq. unfold entry_after, new_entry. simpl.
  destruct (Invoice.type t); now destruct (m !! _).
Qed.

(** The quantity on record of a key after a fold of the step: the quantity
    before, or 0, and then the quantities of the line items filed under the
    key, in the order in which they come. *)
Lemma foldl_step_quantity lines m k :
  InventoryItem.quantity <$> (foldl step m lines !! k)
  = match List.filter (filed_under k) lines with
    | [] => InventoryItem.quantity <$> m !! k
    | filed =>
        Some (running_quantity (default 0%Q (InventoryItem.quantity <$> m !! k)) filed)
    end.
Proof.
  induction lines as [|[t item] lines IH] using rev_ind; [reflexivity|].
  rewrite foldl_app, filter_snoc. simpl.
  change (filed_under k (t, item))
    with (bool_decide (normalize (LineItem.description item) = k)).
  case_bool_decide as Hk.
  - subst k. rewrite book_quantity, IH.
    destruct (List.filter _ lines) as [|line filed] eqn:E.
    + reflexivity.
    + change ((line :: filed) ++ [(t, item)])%list
        with (line :: (filed ++ [(t, item)]))%list.
      cbv iota.
      change (line :: (filed ++ [(t, item)]))%list
        with ((line :: filed) ++ [(t, item)])%list.
      now rewrite running_quantity_snoc.
  - rewrite app_nil_r, book_ne by assumption. exact IH.
Qed.

End Quantities.

(** X1. The quantity that the client derives for a key that is not an
    inherited name is the running total of the line items filed under the
    key: starting from 0, the quantity of each one is added for a purchase
    and taken away for a sale, the transactions being taken in ascending
    order of date, those of one date in the order of the list.  A key with
    no line item, or an inherited name, has no entry. *)
Theorem derived_quantity_is_net (div : Q → Q → Q) (transactions : list Invoice.t)
    (k : string) :
  let sorted := sort (λ a b, Invoice.date a - Invoice.date b)%Z transactions in
  let filed := List.filter (filed_under k) (line_items sorted) in
  (Permutation sorted transactions
   ∧ Sorted (λ a b, Invoice.date a ≤ Invoice.date b)%Z sorted
   ∧ ∀ d, List.filter (λ t, Invoice.date t =? d)%Z sorted
          = List.filter (λ t, Invoice.date t =? d)%Z transactions)
  ∧ InventoryItem.quantity <$> (App.deriveInventory div transactions !! k)
    = if App.inherited k then None
      else match filed with
           | [] => None
           | _ :: _ => Some (running_quantity 0 filed)
           end.
Proof.
  cbv zeta. split.
  - split; [apply sort_Permutation|].
    split; [apply (sort_Sorted Invoice.date)|].
    intros d. apply (sort_stable Invoice.date).
  - destruct (App.inherited k) eqn:Hk.
    + now rewrite deriveInventory_no_inherited.
    + rewrite deriveInventory_lines, foldl_step_quantity, lookup_empty.
      rewrite filter_filed_own by assumption.
      now destruct (List.filter _ _).
Qed.

Lemma derived_quantity_is_net_witness :
  InventoryItem.quantity
    <$> (App.deriveInventory Qdiv [seed_sale; restock; early_sale; seed_purchase] !! "laptops")
  = Some (0 - 2 + 5 - 1 + 3)%Q
  ∧ InventoryItem.quantity
      <$> (App.deriveInventory Qdiv [constructor_purchase; seed_purchase] !! "constructor")
    = None.
Proof.
  destruct (derived_quantity_is_net Qdiv
              [seed_sale; restock; early_sale; seed_purchase] "laptops") as [_ H1].
  destruct (derived_quantity_is_net Qdiv
              [constructor_purchase; seed_purchase] "constructor") as [_ H2].
  split; [now rewrite H1|now rewrite H2].
Defined.

(** X2. A submission under a new id that is answered with the record moves
    the quantity on record of every key by the line items of the
    transaction filed under the key: starting from the quantity on record,
    or from 0 when the key has no entry, the quantity of each one is added
    for a purchase and taken away for a sale, in the order of the line
    items.  A submission under an id that is stored moves no quantity. *)
Theorem submitted_quantity_is_net (div : Q → Q → Q) (db : Server.Db)
    (transaction : Invoice.t) (k : string) :
  (∀ saved,
     Server.Transaction db !! Invoice.id transaction = None →
     (Server.post_transactions div db transaction).2 = Server.ok saved →
     InventoryItem.quantity
       <$> (Server.Inventory (Server.post_transactions div db transaction).1 !! k)
     = match List.filter (filed_under k) (line_items [transaction]) with
       | [] => InventoryItem.quantity <$> Server.Inventory db !! k
       | filed =>
           Some (running_quantity
                   (default 0%Q (InventoryItem.quantity <$> Server.Inventory db !! k))
                   filed)
       end)
  ∧ (is_Some (Server.Transaction db !! Invoice.id transaction) →
     Server.Inventory (Server.post_transactions div db transaction).1
     = Server.Inventory db).
Proof.
  split.
  - intros saved Hnew Hok.
    destruct (post_transactions_ok_new div db transaction saved Hnew Hok) as [_ Hall].
    rewrite post_transactions_Inventory, Hnew.
    rewrite (adjust_all_true div _ _ _ Hall), foldl_book_lines.
    rewrite foldl_step_quantity. unfold line_items. simpl. now rewrite app_nil_r.
  - intros [stored Hs]. now rewrite post_transactions_Inventory, Hs.
Qed.

Lemma submitted_quantity_is_net_witness :
  InventoryItem.quantity
    <$> (Server.Inventory (Server.post_transactions Qdiv (Server.mkDb ∅ stock) seed_sale).1
           !! "laptops")
  = Some (5 - 1)%Q
  ∧ Server.Inventory
      (Server.post_transactions Qdiv (Server.submit_all Qdiv Server.empty seed)
         seed_purchase_edited).1
    = Server.Inventory (Server.submit_all Qdiv Server.empty seed).
Proof.
  destruct (submitted_quantity_is_net Qdiv (Server.mkDb ∅ stock) seed_sale "laptops")
    as [H1 _].
  destruct (submitted_quantity_is_net Qdiv (Server.submit_all Qdiv Server.empty seed)
              seed_purchase_edited "laptops") as [_ H2].
  split.
  - now rewrite (H1 seed_sale eq_refl eq_refl).
  - apply H2. now exists seed_purchase.
Defined.

(** * Further properties of the server *)

Section Stores.
Variable div : Q → Q → Q.

Local Abbreviation key_of := (λ item : LineItem.t, normalize (LineItem.description item)).

Lemma keyed_ids (l : list (string * Invoice.t)) :
  (∀ k t, (k, t) ∈ l → Invoice.id t = k) → Invoice.id <$> l.*2 = l.*1.
Proof.
  induction l as [|[k t] l IH]; intros H; simpl; [reflexivity|].
  rewrite (H k t) by left. f_equal. apply IH. intros k' t' Hin. apply H. now right.
Qed.

Lemma Sorted_descending l :
  Sorted (λ a b : Invoice.t, - Invoice.date a ≤ - Invoice.date b)%Z l →
  Sorted (λ a b, Invoice.date b ≤ Invoice.date a)%Z l.
Proof.
  induction 1 as [|a l Hl IH Ha]; constructor; [exact IH|].
  destruct Ha; constructor; lia.
Qed.

Lemma get_transactions_Permutation db :
  Permutation (Server.get_transactions db) (map_to_list (Server.Transaction db)).*2.
Proof. unfold Server.get_transactions. apply sort_Permutation. Qed.

Lemma get_transactions_elem_of db t :
  transactions_keyed (Server.Transaction db) →
  t ∈ Server.get_transactions db ↔ Server.Transaction db !! Invoice.id t = Some t.
Proof.
  intros HT. rewrite get_transactions_Permutation, list_elem_of_fmap. split.
  - intros ([k t'] & -> & Hin). apply elem_of_map_to_list in Hin. simpl.
    now rewrite (HT k t' Hin).
  - intros Hin. exists (Invoice.id t, t). split; [reflexivity|].
    now apply elem_of_map_to_list.
Qed.

Lemma delete_transactions_keyed db id :
  transactions_keyed (Server.Transaction db) →
  transactions_keyed (Server.Transaction (Server.delete_transactions db id).1).
Proof.
  intros HT k t. simpl. rewrite lookup_delete. case_decide; [discriminate|apply HT].
Qed.

End Stores.

(** X7. The listing of the transactions shows every stored transaction once,
    the most recent business date first; when every record is stored under
    its own [id], no two transactions of the listing share an id, and a
    transaction is listed exactly when it is the record of its id. *)
Theorem get_transactions_listing (db : Server.Db) :
  transactions_keyed (Server.Transaction db) →
  Permutation (Server.get_transactions db) (map_to_list (Server.Transaction db)).*2
  ∧ length (Server.get_transactions db) = size (Server.Transaction db)
  ∧ Sorted (λ a b, Invoice.date b ≤ Invoice.date a)%Z (Server.get_transactions db)
  ∧ NoDup (Invoice.id <$> Server.get_transactions db)
  ∧ (∀ t, t ∈ Server.get_transactions db
          ↔ Server.Transaction db !! Invoice.id t = Some t).
Proof.
  intros HT. pose proof (get_transactions_Permutation db) as Hp.
  split; [exact Hp|]. split; [|split; [|split]].
  - rewrite Hp, length_fmap. apply length_map_to_list.
  - apply Sorted_descending. unfold Server.get_transactions.
    rewrite (sort_ext _ (λ a b, - Invoice.date a - - Invoice.date b)%Z)
      by (intros; lia).
    apply (sort_Sorted (λ t, - Invoice.date t)%Z).
  - rewrite Hp, keyed_ids.
    + apply NoDup_fst_map_to_list.
    + intros k t Hin. apply elem_of_map_to_list in Hin. now apply HT.
  - intros t. now apply get_transactions_elem_of.
Qed.

Lemma get_transactions_listing_witness :
  Sorted (λ a b, Invoice.date b ≤ Invoice.date a)%Z
    (Server.get_transactions (Server.submit_all Qdiv Server.empty seed))
  ∧ NoDup (Invoice.id <$> Server.get_transactions (Server.submit_all Qdiv Server.empty seed)).
Proof.
  assert (HT : transactions_keyed
                 (Server.Transaction (Server.submit_all Qdiv Server.empty seed))).
  { apply submit_all_keyed; intros k t H; vm_compute in H; discriminate H. }
  destruct (get_transactions_listing _ HT) as (_ & _ & Hs & Hn & _).
  exact (conj Hs Hn).
Defined.

(** X8. After a submission that is answered with a record, the listing is
    the one before without the transaction of the submitted id, and with the
    record; after a submission that is answered with an error, the listing
    is as before.  After the deletion of an id, the listing is the one
    before without the transaction of that id.  (For a database whose
    records are stored under their own [id].) *)
Theorem get_transactions_after (div : Q → Q → Q) (db : Server.Db)
    (transaction : Invoice.t) (id : string) :
  transactions_keyed (Server.Transaction db) →
  match (Server.post_transactions div db transaction).2 with
  | Server.ok saved =>
      saved ∈ Server.get_transactions (Server.post_transactions div db transaction).1
      ∧ (∀ t, t ∈ Server.get_transactions (Server.post_transactions div db transaction).1
              ↔ t = saved
                ∨ (t ∈ Server.get_transactions db
                   ∧ Invoice.id t ≠ Invoice.id transaction))
  | Server.error_500 =>
      Server.get_transactions (Server.post_transactions div db transaction).1
      = Server.get_transactions db
  end
  ∧ (∀ t, t ∈ Server.get_transactions (Server.delete_transactions db id).1
          ↔ t ∈ Server.get_transactions db ∧ Invoice.id t ≠ id).
Proof.
  intros HT. split.
  - pose proof (post_transactions_keyed div db transaction HT) as HT'.
    pose proof (post_transactions_Transaction div db transaction) as ET.
    destruct (Server.post_transactions div db transaction).2 as [saved|] eqn:E.
    + apply post_transactions_ok in E.
      assert (Hid : Invoice.id saved = Invoice.id transaction).
      { subst saved. apply findOneAndUpdate_id. }
      assert (Hin : ∀ t, t ∈ Server.get_transactions
                              (Server.post_transactions div db transaction).1
                         ↔ t = saved
                           ∨ (t ∈ Server.get_transactions db
                              ∧ Invoice.id t ≠ Invoice.id transaction)).
      { intros t. rewrite !get_transactions_elem_of by assumption.
        rewrite ET, lookup_insert. case_decide as Hk.
        - split; [intros [= ->]; now left|]. intros [->|[_ Hne]]; [reflexivity|].
          now destruct Hne.
        - split; [intros Ht; right; split; [exact Ht|congruence]|].
          intros [->|[Ht _]]; [|exact Ht]. now destruct Hk. }
      split; [apply Hin; now left|exact Hin].
    + unfold Server.get_transactions. now rewrite ET.
  - intros t. rewrite !get_transactions_elem_of
      by (try apply delete_transactions_keyed; assumption).
    simpl. rewrite lookup_delete. case_decide as Hk.
    + split; [discriminate|]. intros [_ Hne]. now destruct Hne.
    + split; [intros Ht; split; [exact Ht|congruence]|now intros [Ht _]].
Qed.

Lemma get_transactions_after_witness :
  (restock
     ∈ Server.get_transactions
         (Server.post_transactions Qdiv (Server.submit_all Qdiv Server.empty seed) restock).1)
  ∧ Server.get_transactions
      (Server.post_transactions Qdiv (Server.submit_all Qdiv Server.empty seed)
         purchase_with_blank_line).1
    = Server.get_transactions (Server.submit_all Qdiv Server.empty seed)
  ∧ (∀ t, t ∈ Server.get_transactions
                (Server.delete_transactions (Server.submit_all Qdiv Server.empty seed) "1").1
          ↔ t ∈ Server.get_transactions (Server.submit_all Qdiv Server.empty seed)
            ∧ Invoice.id t ≠ "1").
Proof.
  assert (HT : transactions_keyed
                 (Server.Transaction (Server.submit_all Qdiv Server.empty seed))).
  { apply submit_all_keyed; intros k t H; vm_compute in H; discriminate H. }
  destruct (get_transactions_after Qdiv (Server.submit_all Qdiv Server.empty seed)
              restock "1" HT) as [[H1 _] H2].
  destruct (get_transactions_after Qdiv (Server.submit_all Qdiv Server.empty seed)
              purchase_with_blank_line "1" HT) as [H3 _].
  exact (conj H1 (conj H3 H2)).
Defined.

(** X10. Deleting a transaction and submitting it again books it a second
    time: after a submission under a new id that is answered with the
    record, the deletion of that id and a second submission, the
    transaction store is as after the first submission and the answer is
    the same, while the loop over the line items has run a second time, to
    its end, on the inventory that the first submission left. *)
Theorem delete_then_resubmit (div : Q → Q → Q) (db : Server.Db)
    (transaction saved : Invoice.t) :
  Server.Transaction db !! Invoice.id transaction = None →
  (Server.post_transactions div db transaction).2 = Server.ok saved →
  let first := (Server.post_transactions div db transaction).1 in
  let deleted := (Server.delete_transactions first (Invoice.id transaction)).1 in
  let second := Server.post_transactions div deleted transaction in
  second.2 = Server.ok saved
  ∧ Server.Transaction second.1 = Server.Transaction first
  ∧ Server.Inventory first
    = (Server.adjust_all div transaction (Server.Inventory db)
         (Invoice.items transaction)).1
  ∧ Server.Inventory second.1
    = (Server.adjust_all div transaction (Server.Inventory first)
         (Invoice.items transaction)).1
  ∧ (Server.adjust_all div transaction (Server.Inventory first)
       (Invoice.items transaction)).2 = true.
Proof.
  intros Hnew Hok. cbv zeta.
  destruct (post_transactions_ok_new div db transaction saved Hnew Hok) as [-> Hall].
  assert (E1 : Server.post_transactions div db transaction
               = (Server.mkDb (<[Invoice.id transaction := transaction]>
                                 (Server.Transaction db))
                    (Server.adjust_all div transaction (Server.Inventory db)
                       (Invoice.items transaction)).1,
                  Server.ok transaction)).
  { now rewrite (post_transactions_new div db transaction Hnew), Hall. }
  rewrite E1. cbn [fst snd Server.delete_transactions Server.Transaction Server.Inventory].
  assert (Hagain : (Server.adjust_all div transaction
                      (Server.adjust_all div transaction (Server.Inventory db)
                         (Invoice.items transaction)).1
                      (Invoice.items transaction)).2 = true).
  { apply adjust_all_ready. now apply adjust_all_true_ready. }
  rewrite (post_transactions_new div (Server.mkDb _ _) transaction)
    by apply lookup_delete_eq.
  cbn [Server.Transaction Server.Inventory]. rewrite Hagain. cbn [fst snd].
  split; [reflexivity|]. split; [|now repeat split].
  now rewrite insert_delete_eq, insert_insert_eq.
Qed.

Lemma delete_then_resubmit_witness :
  InventoryItem.quantity <$>
    Server.Inventory
      (Server.post_transactions Qdiv
         (Server.delete_transactions
            (Server.post_transactions Qdiv Server.empty seed_purchase).1 "1").1
         seed_purchase).1 !! "laptops"
  = Some (0 + 5 + 5)%Q
  ∧ (Server.post_transactions Qdiv
       (Server.delete_transactions
          (Server.post_transactions Qdiv Server.empty seed_purchase).1 "1").1
       seed_purchase).2 = Server.ok seed_purchase.
Proof.
  destruct (delete_then_resubmit Qdiv Server.empty seed_purchase seed_purchase
              eq_refl eq_refl) as (H1 & _ & _ & H2 & _).
  split; [|exact H1].
  change (Invoice.id seed_purchase) with "1" in H2. now rewrite H2.
Defined.

(** * Properties of the client together with the server *)

Section SessionFacts.
Variable div : Q → Q → Q.

Lemma setTransactions_saved_fresh saved prev :
  (∀ x, x ∈ prev → Invoice.id x ≠ Invoice.id saved) →
  Session.setTransactions_saved saved prev = saved :: prev.
Proof.
  intros Hfresh. unfold Session.setTransactions_saved.
  destruct (existsb _ prev) eqn:E; [|reflexivity].
  apply existsb_exists in E as (x & Hx & Hid).
  apply bool_decide_eq_true in Hid. apply list_elem_of_In in Hx.
  now destruct (Hfresh x Hx).
Qed.

Lemma setTransactions_saved_other saved rest :
  (∀ x, x ∈ rest → Invoice.id x ≠ Invoice.id saved) →
  map (λ t, if bool_decide (Invoice.id t = Invoice.id saved) then saved else t) rest
  = rest.
Proof.
  induction rest as [|x rest IH]; intros H; simpl; [reflexivity|].
  rewrite bool_decide_eq_false_2 by (apply H; left). f_equal.
  apply IH. intros y Hy. apply H. now right.
Qed.

(** The state [transactions] mirrors the transaction store: the same
    records, each once. *)
Lemma setTransactions_saved_mirror (m : gmap string Invoice.t) saved prev :
  transactions_keyed m →
  Permutation prev (map_to_list m).*2 →
  Permutation (Session.setTransactions_saved saved prev)
    (map_to_list (<[Invoice.id saved := saved]> m)).*2.
Proof.
  intros HT Hp.
  destruct (m !! Invoice.id saved) as [old|] eqn:E.
  - assert (Hrest : ∀ x, x ∈ (map_to_list (delete (Invoice.id saved) m)).*2 →
                         Invoice.id x ≠ Invoice.id saved).
    { intros x ([k x'] & -> & Hin)%list_elem_of_fmap.
      apply elem_of_map_to_list in Hin. simpl.
      rewrite lookup_delete in Hin. case_decide as Hk; [discriminate|].
      now rewrite (HT k x' Hin). }
    rewrite <- insert_delete_eq.
    rewrite map_to_list_insert by apply lookup_delete_eq.
    rewrite <- (map_to_list_delete m _ old E) in Hp. simpl in Hp.
    unfold Session.setTransactions_saved.
    assert (Hex : existsb (λ t, bool_decide (Invoice.id t = Invoice.id saved)) prev = true).
    { apply existsb_exists. exists old. split.
      - apply list_elem_of_In. rewrite Hp. left.
      - apply bool_decide_eq_true. now apply HT. }
    rewrite Hex. rewrite (Permutation_map _ Hp). simpl.
    rewrite bool_decide_eq_true_2 by now apply HT.
    now rewrite setTransactions_saved_other.
  - rewrite setTransactions_saved_fresh.
    + rewrite map_to_list_insert by assumption. simpl. now rewrite Hp.
    + intros x Hx Hid. rewrite Hp in Hx.
      apply list_elem_of_fmap in Hx as ([k x'] & -> & Hin).
      apply elem_of_map_to_list in Hin. simpl in Hid.
      rewrite <- Hid, (HT k x' Hin), Hin in E. discriminate.
Qed.

Lemma saveTransaction_fst st t :
  (Session.saveTransaction div st t).1 = (Server.post_transactions div st.1 t).1.
Proof.
  unfold Session.saveTransaction.
  now destruct (Server.post_transactions div st.1 t).2.
Qed.

Lemma foldl_saveTransaction_fst h : ∀ st,
  (foldl (Session.saveTransaction div) st h).1 = Server.submit_all div st.1 h.
Proof.
  induction h as [|t h IH]; intros st; simpl; [reflexivity|].
  now rewrite IH, saveTransaction_fst.
Qed.

Lemma saveTransaction_plain st t :
  Server.Transaction st.1 !! Invoice.id t = None →
  plain_transaction t = true → inventory_valid (Server.Inventory st.1) →
  Session.saveTransaction div st t
  = ((Server.post_transactions div st.1 t).1, Session.setTransactions_saved t st.2).
Proof.
  intros Hnew Hp Hm. unfold Session.saveTransaction.
  destruct (post_transactions_plain div st.1 t Hnew Hp Hm) as [E _].
  now rewrite E.
Qed.

Lemma foldl_saveTransaction_fresh h : ∀ st,
  NoDup (Invoice.id <$> h) →
  (∀ t, t ∈ h → Server.Transaction st.1 !! Invoice.id t = None) →
  plain_history h = true → inventory_valid (Server.Inventory st.1) →
  (∀ t x, t ∈ h → x ∈ st.2 → Invoice.id x ≠ Invoice.id t) →
  (foldl (Session.saveTransaction div) st h).2 = (rev h ++ st.2)%list.
Proof.
  induction h as [|t h IH]; intros st Hnd Hnew Hp Hm Hfresh; simpl; [reflexivity|].
  apply NoDup_cons in Hnd as [Ht Hnd].
  simpl in Hp. apply andb_true_iff in Hp as [Hpt Hp].
  assert (Hne : ∀ t', t' ∈ h → Invoice.id t ≠ Invoice.id t').
  { intros t' Ht' Heq. apply Ht. rewrite Heq. now apply list_elem_of_fmap_2. }
  rewrite (saveTransaction_plain st t (Hnew t ltac:(left)) Hpt Hm).
  destruct (post_transactions_plain div st.1 t (Hnew t ltac:(left)) Hpt Hm) as [E Hm'].
  rewrite setTransactions_saved_fresh
    by (intros x Hx; apply (Hfresh t x); [left|exact Hx]).
  rewrite IH; cbn [fst snd].
  - now rewrite <- app_assoc.
  - exact Hnd.
  - intros t' Ht'. rewrite E. cbn [fst Server.Transaction].
    rewrite lookup_insert_ne by now apply Hne. apply Hnew. now right.
  - exact Hp.
  - now rewrite E.
  - intros t' x Ht' Hx. apply elem_of_cons in Hx as [->|Hx].
    + now apply Hne.
    + apply Hfresh; [now right|exact Hx].
Qed.

Lemma submit_all_app h1 h2 db :
  Server.submit_all div db (h1 ++ h2)
  = Server.submit_all div (Server.submit_all div db h1) h2.
Proof. unfold Server.submit_all. apply foldl_app. Qed.

(** The transaction store after a plain history with new, distinct ids:
    each transaction under its id. *)
Lemma submit_all_plain_Transaction h : ∀ db,
  NoDup (Invoice.id <$> h) →
  (∀ t, t ∈ h → Server.Transaction db !! Invoice.id t = None) →
  plain_history h = true → inventory_valid (Server.Inventory db) →
  Server.Transaction (Server.submit_all div db h)
  = foldl (λ T t, <[Invoice.id t := t]> T) (Server.Transaction db) h.
Proof.
  induction h as [|t h IH]; intros db Hnd Hnew Hp Hm; [reflexivity|].
  apply NoDup_cons in Hnd as [Ht Hnd].
  simpl in Hp. apply andb_true_iff in Hp as [Hpt Hp].
  destruct (post_transactions_plain div db t (Hnew t ltac:(left)) Hpt Hm) as [E Hm'].
  unfold Server.submit_all in *. simpl. rewrite E. simpl.
  apply (IH (Server.mkDb _ _)); simpl; [exact Hnd| |exact Hp|exact Hm'].
  intros t' Ht'. rewrite lookup_insert_ne.
  - apply Hnew. now right.
  - intros Heq. apply Ht. rewrite Heq. now apply list_elem_of_fmap_2.
Qed.

Lemma foldl_insert_lookup (h : list Invoice.t) : ∀ (T : gmap string Invoice.t) j,
  j ∉ (Invoice.id <$> h) →
  foldl (λ T t, <[Invoice.id t := t]> T) T h !! j = T !! j.
Proof.
  induction h as [|t h IH]; intros T j Hj; simpl; [reflexivity|].
  rewrite fmap_cons in Hj. apply not_elem_of_cons in Hj as [Hne Hj].
  rewrite IH by exact Hj. now rewrite lookup_insert_ne.
Qed.

Lemma foldl_insert_store (h : list Invoice.t) : ∀ T : gmap string Invoice.t,
  NoDup (Invoice.id <$> h) →
  (∀ t, t ∈ h → T !! Invoice.id t = None) →
  Permutation (map_to_list (foldl (λ T t, <[Invoice.id t := t]> T) T h)).*2
    ((map_to_list T).*2 ++ h).
Proof.
  induction h as [|t h IH]; intros T Hnd Hnew.
  - simpl. now rewrite app_nil_r.
  - rewrite fmap_cons in Hnd. apply NoDup_cons in Hnd as [Ht Hnd].
    cbn [foldl]. rewrite IH; [|exact Hnd|].
    + rewrite map_to_list_insert by (apply Hnew; left). simpl.
      apply Permutation_middle.
    + intros t' Ht'. rewrite lookup_insert_ne.
      * apply Hnew. now right.
      * intros Heq. apply Ht. rewrite Heq. now apply list_elem_of_fmap_2.
Qed.

Lemma get_transactions_submit_all h :
  NoDup (Invoice.id <$> h) → plain_history h = true →
  Permutation (Server.get_transactions (Server.submit_all div Server.empty h)) h.
Proof.
  intros Hnd Hp. rewrite get_transactions_Permutation.
  rewrite submit_all_plain_Transaction;
    [|exact Hnd|intros t _; apply lookup_empty|exact Hp|apply inventory_valid_empty].
  rewrite foldl_insert_store; [|exact Hnd|intros t _; apply lookup_empty].
  simpl. now rewrite map_to_list_empty.
Qed.

(** The inventory of the server after a plain history in order of date with
    distinct ids, as the client derives it from any arrangement of the
    history when the dates are distinct. *)
Lemma derive_arranged h arranged :
  Permutation h arranged →
  Sorted (λ a b, Invoice.date a ≤ Invoice.date b)%Z h →
  NoDup (Invoice.date <$> h) →
  NoDup (Invoice.id <$> h) →
  plain_history h = true →
  App.deriveInventory div arranged
  = Server.Inventory (Server.submit_all div Server.empty h).
Proof.
  intros Hp Hs Hd Hi Hplain. unfold App.deriveInventory.
  rewrite <- (sort_Permutation_distinct Invoice.date h arranged Hp Hd).
  rewrite sort_of_sorted by now apply Sorted_by_date.
  symmetry. apply (submit_all_plain div h Server.empty Hi); [|exact Hplain|].
  - intros t _. apply lookup_empty.
  - apply inventory_valid_empty.
Qed.

End SessionFacts.

(** X11. Saving a transaction keeps the state [transactions] of the client a
    mirror of the transaction store of the server: when the list holds the
    stored records, each once, it does so again after [saveTransaction],
    whether the transaction is new, replaces the one of its id, or is
    refused; every record is still stored under its own [id].  When the
    server answers with a record, the list holds it, in the place of the
    transaction of its id or first; when it answers with an error, the list
    and the transaction store are as before. *)
Theorem saveTransaction_mirror (div : Q → Q → Q) (db : Server.Db)
    (transactions : list Invoice.t) (transaction : Invoice.t) :
  transactions_keyed (Server.Transaction db) →
  Permutation transactions (map_to_list (Server.Transaction db)).*2 →
  let state := Session.saveTransaction div (db, transactions) transaction in
  Permutation state.2 (map_to_list (Server.Transaction state.1)).*2
  ∧ transactions_keyed (Server.Transaction state.1)
  ∧ NoDup (Invoice.id <$> state.2)
  ∧ match (Server.post_transactions div db transaction).2 with
    | Server.ok saved =>
        saved ∈ state.2
        ∧ state.2 = Session.setTransactions_saved saved transactions
    | Server.error_500 =>
        state.2 = transactions
        ∧ Server.Transaction state.1 = Server.Transaction db
    end.
Proof.
  intros HT Hp. cbv zeta.
  assert (HT' : transactions_keyed
                  (Server.Transaction
                     (Session.saveTransaction div (db, transactions) transaction).1)).
  { rewrite saveTransaction_fst. now apply post_transactions_keyed. }
  assert (Hm : Permutation (Session.saveTransaction div (db, transactions) transaction).2
                 (map_to_list
                    (Server.Transaction
                       (Session.saveTransaction div (db, transactions) transaction).1)).*2).
  { rewrite saveTransaction_fst. cbn [fst].
    rewrite post_transactions_Transaction. unfold Session.saveTransaction. cbn [fst snd].
    destruct (Server.post_transactions div db transaction).2 as [saved|] eqn:E;
      cbn [snd]; [|exact Hp].
    apply post_transactions_ok in E.
    rewrite <- (findOneAndUpdate_id (Server.Transaction db !! Invoice.id transaction)
                  transaction), <- E.
    now apply setTransactions_saved_mirror. }
  split; [exact Hm|]. split; [exact HT'|]. split.
  - rewrite Hm, keyed_ids.
    + apply NoDup_fst_map_to_list.
    + intros k t Hin. apply elem_of_map_to_list in Hin. now apply HT'.
  - pose proof (post_transactions_Transaction div db transaction) as ET.
    clear HT'. revert Hm. unfold Session.saveTransaction. cbn [fst snd].
    destruct (Server.post_transactions div db transaction).2 as [saved|] eqn:E;
      cbn [fst snd]; intros Hm.
    + split; [|reflexivity]. rewrite Hm, ET.
      apply list_elem_of_fmap. exists (Invoice.id transaction, saved).
      split; [reflexivity|]. apply elem_of_map_to_list. apply lookup_insert_eq.
    + now split.
Qed.

Lemma saveTransaction_mirror_witness :
  (let state :=
     Session.saveTransaction Qdiv
       (Server.submit_all Qdiv Server.empty seed,
        Server.get_transactions (Server.submit_all Qdiv Server.empty seed))
       seed_purchase_edited in
   NoDup (Invoice.id <$> state.2)
   ∧ seed_purchase_edited ∈ state.2
   ∧ state.2
     = Session.setTransactions_saved seed_purchase_edited
         (Server.get_transactions (Server.submit_all Qdiv Server.empty seed)))
  ∧ (let state :=
       Session.saveTransaction Qdiv
         (Server.submit_all Qdiv Server.empty seed,
          Server.get_transactions (Server.submit_all Qdiv Server.empty seed))
         purchase_with_blank_line in
     state.2 = Server.get_transactions (Server.submit_all Qdiv Server.empty seed)
     ∧ Server.Transaction state.1
       = Server.Transaction (Server.submit_all Qdiv Server.empty seed)).
Proof.
  assert (HT : transactions_keyed
                 (Server.Transaction (Server.submit_all Qdiv Server.empty seed))).
  { apply submit_all_keyed; intros k t H; vm_compute in H; discriminate H. }
  pose proof (get_transactions_Permutation (Server.submit_all Qdiv Server.empty seed))
    as Hp.
  destruct (saveTransaction_mirror Qdiv (Server.submit_all Qdiv Server.empty seed)
              (Server.get_transactions (Server.submit_all Qdiv Server.empty seed))
              seed_purchase_edited HT Hp) as (_ & _ & Hn & Hin).
  destruct (saveTransaction_mirror Qdiv (Server.submit_all Qdiv Server.empty seed)
              (Server.get_transactions (Server.submit_all Qdiv Server.empty seed))
              purchase_with_blank_line HT Hp) as (_ & _ & _ & Herr).
  split; [exact (conj Hn Hin)|exact Herr].
Defined.

(** X12. In a session that starts from the stored transactions of a server
    history, in any arrangement, and saves further transactions one by one,
    the inventory that the client derives is the inventory of the server,
    provided the whole history is in ascending order of business date, with
    no date and no id used twice, and has no line item whose key is empty or
    an inherited name. *)
Theorem session_inventory_agrees (div : Q → Q → Q)
    (before loaded saved : list Invoice.t) :
  Permutation before loaded →
  Sorted (λ a b, Invoice.date a ≤ Invoice.date b)%Z (before ++ saved) →
  NoDup (Invoice.date <$> (before ++ saved)%list) →
  NoDup (Invoice.id <$> (before ++ saved)%list) →
  plain_history (before ++ saved) = true →
  let state :=
    foldl (Session.saveTransaction div)
      (Server.submit_all div Server.empty before, loaded) saved in
  state.1 = Server.submit_all div Server.empty (before ++ saved)
  ∧ state.2 = (rev saved ++ loaded)%list
  ∧ App.deriveInventory div state.2 = Server.Inventory state.1.
Proof.
  intros Hp Hs Hd Hi Hplain. cbv zeta.
  assert (H1 : (foldl (Session.saveTransaction div)
                  (Server.submit_all div Server.empty before, loaded) saved).1
               = Server.submit_all div Server.empty (before ++ saved)).
  { now rewrite foldl_saveTransaction_fst, submit_all_app. }
  assert (H2 : (foldl (Session.saveTransaction div)
                  (Server.submit_all div Server.empty before, loaded) saved).2
               = (rev saved ++ loaded)%list).
  { pose proof Hi as Hi'. rewrite fmap_app in Hi'.
    apply NoDup_app in Hi' as (Hbefore & Hdisj & Hsaved).
    pose proof Hplain as Hplain'. unfold plain_history in Hplain'.
    rewrite forallb_app in Hplain'. apply andb_true_iff in Hplain' as [Hpb Hps].
    apply foldl_saveTransaction_fresh; cbn [fst snd]; [exact Hsaved| |exact Hps| |].
    - intros t Ht.
      rewrite submit_all_plain_Transaction;
        [|exact Hbefore|intros x _; apply lookup_empty|exact Hpb
         |apply inventory_valid_empty].
      rewrite foldl_insert_lookup; [apply lookup_empty|].
      intros Hin. apply (Hdisj _ Hin). now apply list_elem_of_fmap_2.
    - apply (submit_all_plain div before Server.empty Hbefore);
        [intros x _; apply lookup_empty|exact Hpb|apply inventory_valid_empty].
    - intros t x Ht Hx Heq. rewrite <- Hp in Hx.
      apply (Hdisj (Invoice.id x)).
      + now apply list_elem_of_fmap_2.
      + rewrite Heq. now apply list_elem_of_fmap_2. }
  split; [exact H1|]. split; [exact H2|].
  rewrite H1, H2. apply derive_arranged; [|assumption..].
  rewrite <- Hp, <- (Permutation_rev saved). apply Permutation_app_comm.
Qed.

Lemma session_inventory_agrees_witness :
  App.deriveInventory Qdiv
    (foldl (Session.saveTransaction Qdiv)
       (Server.submit_all Qdiv Server.empty seed, seed) [restock; mouse_sale]).2
  = Server.Inventory
      (foldl (Session.saveTransaction Qdiv)
         (Server.submit_all Qdiv Server.empty seed, seed) [restock; mouse_sale]).1.
Proof.
  apply (session_inventory_agrees Qdiv seed seed [restock; mouse_sale]).
  - apply Permutation_refl.
  - repeat constructor; simpl; lia.
  - apply (bool_decide_unpack _). vm_compute. exact I.
  - apply (bool_decide_unpack _). vm_compute. exact I.
  - reflexivity.
Defined.

(** X13. The first load gives the client the transactions that the server
    stores, and an inventory derived from them that is the inventory of the
    server: for a server that was sent a history in ascending order of
    business date, with no date and no id used twice and no line item whose
    key is empty or an inherited name, the state [transactions] after
    [fetchData] is the listing of the server (or the seed, which is saved to
    the server, when the history is empty). *)
Theorem fetchData_loads (div : Q → Q → Q) (history : list Invoice.t) :
  Sorted (λ a b, Invoice.date a ≤ Invoice.date b)%Z history →
  NoDup (Invoice.date <$> history) →
  NoDup (Invoice.id <$> history) →
  plain_history history = true →
  let db := Server.submit_all div Server.empty history in
  let state := Session.fetchData div db in
  match history with
  | [] => state = (Server.submit_all div Server.empty seed, seed)
  | _ :: _ => state = (db, Server.get_transactions db)
  end
  ∧ Permutation state.2 (map_to_list (Server.Transaction state.1)).*2
  ∧ App.deriveInventory div state.2 = Server.Inventory state.1.
Proof.
  intros Hs Hd Hi Hplain. cbv zeta.
  pose proof (get_transactions_submit_all div history Hi Hplain) as Hp.
  destruct history as [|t h].
  - assert (E : Session.fetchData div (Server.submit_all div Server.empty [])
                = (Server.submit_all div Server.empty seed, seed)) by reflexivity.
    rewrite E. split; [reflexivity|]. cbn [fst snd].
    assert (Hseed_ids : NoDup (Invoice.id <$> seed)).
    { apply (bool_decide_unpack _). vm_compute. exact I. }
    split.
    + rewrite <- get_transactions_Permutation. symmetry.
      now apply get_transactions_submit_all.
    + apply derive_arranged; [reflexivity| | |exact Hseed_ids|reflexivity].
      * repeat constructor. simpl. lia.
      * apply (bool_decide_unpack _). vm_compute. exact I.
  - assert (E : Session.fetchData div (Server.submit_all div Server.empty (t :: h))
                = (Server.submit_all div Server.empty (t :: h),
                   Server.get_transactions (Server.submit_all div Server.empty (t :: h)))).
    { unfold Session.fetchData.
      destruct (decide _) as [Hlen|Hlen]; [|reflexivity].
      apply Permutation_length in Hp. rewrite Hlen in Hp. discriminate Hp. }
    rewrite E. split; [reflexivity|]. cbn [fst snd]. split.
    + apply get_transactions_Permutation.
    + apply derive_arranged; [now symmetry|assumption..].
Qed.

Lemma fetchData_loads_witness :
  App.deriveInventory Qdiv
    (Session.fetchData Qdiv (Server.submit_all Qdiv Server.empty [early_sale; restock])).2
  = Server.Inventory
      (Session.fetchData Qdiv (Server.submit_all Qdiv Server.empty [early_sale; restock])).1.
Proof.
  apply (fetchData_loads Qdiv [early_sale; restock]).
  - repeat constructor; simpl; lia.
  - apply (bool_decide_unpack _). vm_compute. exact I.
  - apply (bool_decide_unpack _). vm_compute. exact I.
  - reflexivity.
Defined.

(** When a save of the seed is refused, the first load leaves the state
    [transactions] empty: the server stores no transaction but holds an
    entry without a name under the key of the seed. *)
Example fetchData_seed_refused :
  let state := Session.fetchData Qdiv (Server.mkDb ∅ unnamed_stock) in
  state.2 = []
  ∧ (Server.post_transactions Qdiv (Server.mkDb ∅ unnamed_stock) seed_purchase).2
    = Server.error_500
  ∧ Server.Transaction state.1 = ∅.
Proof. repeat split. Qed.

(** * Further properties of the ledger step *)

(** X15. In the derived inventory, [lastUpdated] of a key that is not an
    inherited name is the date of the last transaction with a line item
    filed under the key, and [sellingPrice] is the price of the last sale
    line item filed under the key, or 0 when the key was only ever bought;
    the transactions are taken in ascending order of date, those of one
    date in the order of the list.  An inherited name has no entry. *)
Theorem derived_lastUpdated_sellingPrice (div : Q → Q → Q)
    (transactions : list Invoice.t) (k : string) :
  let sorted := sort (λ a b, Invoice.date a - Invoice.date b)%Z transactions in
  let lines := line_items sorted in
  (Permutation sorted transactions
   ∧ Sorted (λ a b, Invoice.date a ≤ Invoice.date b)%Z sorted
   ∧ ∀ d, List.filter (λ t, Invoice.date t =? d)%Z sorted
          = List.filter (λ t, Invoice.date t =? d)%Z transactions)
  ∧ (App.inherited k = true → App.deriveInventory div transactions !! k = None)
  ∧ (App.inherited k = false →
     InventoryItem.lastUpdated <$> (App.deriveInventory div transactions !! k)
     = (λ line, Invoice.date line.1) <$> last (List.filter (filed_under k) lines)
     ∧ InventoryItem.sellingPrice <$> (App.deriveInventory div transactions !! k)
       = (λ _, default 0%Q
                 ((λ line, LineItem.price line.2)
                    <$> last (List.filter (sold_under k) lines)))
           <$> last (List.filter (filed_under k) lines)).
Proof.
  cbv zeta. split; [|split].
  - split; [apply sort_Permutation|].
    split; [apply (sort_Sorted Invoice.date)|].
    intros d. apply (sort_stable Invoice.date).
  - apply deriveInventory_no_inherited.
  - intros Hk. rewrite deriveInventory_lines. split.
    + rewrite foldl_step_lastUpdated, lookup_empty, filter_filed_own by exact Hk.
      now destruct (last _).
    + rewrite foldl_step_sellingPrice, lookup_empty.
      rewrite filter_filed_own, filter_sold_own by exact Hk.
      destruct (last (List.filter (filed_under k) _)); [|reflexivity].
      simpl. now destruct (last (List.filter (sold_under k) _)).
Qed.

Lemma derived_lastUpdated_sellingPrice_witness :
  InventoryItem.lastUpdated
    <$> (App.deriveInventory Qdiv [seed_sale; restock; early_sale; seed_purchase] !! "laptops")
  = Some 1709000000000%Z
  ∧ InventoryItem.sellingPrice
      <$> (App.deriveInventory Qdiv [seed_sale; restock; early_sale; seed_purchase]
             !! "laptops")
    = Some 35000%Q
  ∧ App.deriveInventory Qdiv [constructor_sale; seed_purchase] !! "constructor" = None.
Proof.
  destruct (derived_lastUpdated_sellingPrice Qdiv
              [seed_sale; restock; early_sale; seed_purchase] "laptops")
    as (_ & _ & H).
  destruct (H eq_refl) as [Hd Hp].
  destruct (derived_lastUpdated_sellingPrice Qdiv
              [constructor_sale; seed_purchase] "constructor")
    as (_ & Hc & _).
  split; [now rewrite Hd|]. split; [now rewrite Hp|exact (Hc eq_refl)].
Defined.

(** X16. After a submission under a new id that is answered with the record,
    every entry of a key of its line items carries the date of the
    transaction as [lastUpdated]; the selling price of such an entry is the
    price of the last line item of the key if the transaction is a sale, and
    is unchanged (0 for a new entry) if it is a purchase. *)
Theorem submitted_lastUpdated_sellingPrice (div : Q → Q → Q) (db : Server.Db)
    (transaction saved : Invoice.t) (k : string) (line : LineItem.t) :
  Server.Transaction db !! Invoice.id transaction = None →
  (Server.post_transactions div db transaction).2 = Server.ok saved →
  last (List.filter (λ item, bool_decide (normalize (LineItem.description item) = k))
          (Invoice.items transaction)) = Some line →
  InventoryItem.lastUpdated <$>
    (Server.Inventory (Server.post_transactions div db transaction).1 !! k)
    = Some (Invoice.date transaction)
  ∧ InventoryItem.sellingPrice <$>
      (Server.Inventory (Server.post_transactions div db transaction).1 !! k)
    = Some match Invoice.type transaction with
           | SALE => LineItem.price line
           | PURCHASE =>
               default 0%Q (InventoryItem.sellingPrice <$> Server.Inventory db !! k)
           end.
Proof.
  intros Hnew Hok Hlast.
  destruct (post_transactions_ok_new div db transaction saved Hnew Hok) as [_ Hall].
  rewrite post_transactions_Inventory, Hnew.
  rewrite (adjust_all_true div _ _ _ Hall), foldl_book_lines.
  rewrite foldl_step_lastUpdated, foldl_step_sellingPrice, !filter_lines.
  unfold filed_under, sold_under, filed_under. simpl.
  rewrite !fmap_last. rewrite Hlast. simpl. split; [reflexivity|]. f_equal.
  destruct (Invoice.type transaction).
  - rewrite (proj2 (last_None _)); [reflexivity|].
    clear. induction (Invoice.items transaction) as [|item items IH]; simpl; [reflexivity|].
    now rewrite andb_false_r.
  - assert (E : List.filter
                  (λ item, bool_decide (normalize (LineItem.description item) = k) && true)
                  (Invoice.items transaction)
                = List.filter
                    (λ item, bool_decide (normalize (LineItem.description item) = k))
                    (Invoice.items transaction)).
    { apply List.filter_ext. intros item. apply andb_true_r. }
    rewrite E, Hlast. reflexivity.
Qed.

Lemma submitted_lastUpdated_sellingPrice_witness :
  InventoryItem.lastUpdated <$>
    (Server.Inventory (Server.post_transactions Qdiv (Server.mkDb ∅ stock) seed_sale).1
       !! "laptops") = Some 1708387200000%Z
  ∧ InventoryItem.sellingPrice <$>
      (Server.Inventory (Server.post_transactions Qdiv (Server.mkDb ∅ stock) seed_sale).1
         !! "laptops") = Some 35000%Q.
Proof.
  apply (submitted_lastUpdated_sellingPrice Qdiv (Server.mkDb ∅ stock) seed_sale seed_sale
           "laptops" (LineItem.mk "i2" "Laptops" 1 35000)); reflexivity.
Defined.

Section Commutation.
Variable div : Q → Q → Q.

Local Abbreviation key_of := (λ item : LineItem.t, normalize (LineItem.description item)).

(** What is written under a key depends on the entry of that key alone. *)
Lemma book_local t item m m' k :
  m !! k = m' !! k → book div t m item !! k = book div t m' item !! k.
Proof.
  intros E. unfold book. rewrite !lookup_insert.
  case_decide as Hk; [|exact E]. subst k. now rewrite E.
Qed.

(** The loop of the server, on two inventories that agree on the keys of the
    line items, is left at the same line item and writes the same
    entries. *)
Lemma adjust_all_local t items : ∀ m m',
  (∀ item, item ∈ items → m !! key_of item = m' !! key_of item) →
  (Server.adjust_all div t m items).2 = (Server.adjust_all div t m' items).2
  ∧ ∀ k, m !! k = m' !! k →
         (Server.adjust_all div t m items).1 !! k
         = (Server.adjust_all div t m' items).1 !! k.
Proof.
  induction items as [|item items IH]; intros m m' H; simpl; [now split|].
  rewrite !adjust_inventory_book, <- (H item ltac:(left)).
  destruct (Server.validates _); [|now split].
  destruct (IH (book div t m item) (book div t m' item)) as [IH1 IH2].
  - intros item' Hin. apply book_local, H. now right.
  - split; [exact IH1|]. intros k Hk. now apply IH2, book_local.
Qed.

Lemma elem_of_keys items item :
  item ∈ items → key_of item ∈ (list_to_set (key_of <$> items) : gset string).
Proof.
  intros Hin. apply elem_of_list_to_set, list_elem_of_fmap.
  exists item. now split.
Qed.

(** Two loops over line items with no key in common do not see each
    other. *)
Lemma adjust_all_apart t1 t2 items1 items2 m :
  (list_to_set (key_of <$> items1) : gset string) ## list_to_set (key_of <$> items2) →
  (Server.adjust_all div t2 (Server.adjust_all div t1 m items1).1 items2).2
  = (Server.adjust_all div t2 m items2).2
  ∧ (Server.adjust_all div t2 (Server.adjust_all div t1 m items1).1 items2).1
    = (Server.adjust_all div t1 (Server.adjust_all div t2 m items2).1 items1).1.
Proof.
  intros Hdisj.
  assert (H12 : ∀ item, item ∈ items2 →
            (Server.adjust_all div t1 m items1).1 !! key_of item = m !! key_of item).
  { intros item Hin. apply adjust_all_frame. intros Hk.
    exact (Hdisj _ Hk (elem_of_keys items2 item Hin)). }
  assert (H21 : ∀ item, item ∈ items1 →
            m !! key_of item = (Server.adjust_all div t2 m items2).1 !! key_of item).
  { intros item Hin. symmetry. apply adjust_all_frame. intros Hk.
    exact (Hdisj _ (elem_of_keys items1 item Hin) Hk). }
  destruct (adjust_all_local t2 items2 _ m H12) as [F2 L2].
  destruct (adjust_all_local t1 items1 m _ H21) as [F1 L1].
  split; [exact F2|]. apply map_eq. intros k.
  destruct (decide (k ∈ (list_to_set (key_of <$> items1) : gset string))) as [Hk|Hk].
  - assert (Hk2 : k ∉ (list_to_set (key_of <$> items2) : gset string)).
    { intros Hk2. exact (Hdisj k Hk Hk2). }
    rewrite (adjust_all_frame div t2 items2 k _ Hk2).
    apply L1. symmetry. now apply adjust_all_frame.
  - rewrite (adjust_all_frame div t1 items1 k _ Hk).
    apply L2. now apply adjust_all_frame.
Qed.

Lemma post_transactions_lookup_ne db t j :
  Invoice.id t ≠ j →
  Server.Transaction (Server.post_transactions div db t).1 !! j
  = Server.Transaction db !! j.
Proof.
  intros Hne. rewrite post_transactions_Transaction.
  destruct (Server.post_transactions div db t).2; [|reflexivity].
  now apply lookup_insert_ne.
Qed.

(** A submission in one expression: the record is written when the loop ran
    to its end or did not run. *)
Lemma post_transactions_eq db t :
  (Server.post_transactions div db t).1
  = Server.mkDb
      (if match Server.Transaction db !! Invoice.id t with
          | Some _ => true
          | None =>
              (Server.adjust_all div t (Server.Inventory db) (Invoice.items t)).2
          end
       then <[Invoice.id t :=
                Server.findOneAndUpdate (Server.Transaction db !! Invoice.id t) t]>
              (Server.Transaction db)
       else Server.Transaction db)
      (match Server.Transaction db !! Invoice.id t with
       | Some _ => Server.Inventory db
       | None => (Server.adjust_all div t (Server.Inventory db) (Invoice.items t)).1
       end).
Proof.
  unfold Server.post_transactions.
  destruct (Server.Transaction db !! Invoice.id t); [reflexivity|].
  now destruct (Server.adjust_all div t (Server.Inventory db) (Invoice.items t)) as [? [|]].
Qed.

End Commutation.

(** X17. Two submissions under different ids whose line items have no key in
    common can be made in either order: the database is the same after
    both. *)
Theorem post_transactions_commute (div : Q → Q → Q) (db : Server.Db)
    (t1 t2 : Invoice.t) :
  Invoice.id t1 ≠ Invoice.id t2 →
  keys_of [t1] ## keys_of [t2] →
  (Server.post_transactions div (Server.post_transactions div db t1).1 t2).1
  = (Server.post_transactions div (Server.post_transactions div db t2).1 t1).1.
Proof.
  intros Hid Hdisj. unfold keys_of in Hdisj. simpl in Hdisj.
  rewrite !app_nil_r in Hdisj.
  assert (Hdisj' : (list_to_set ((λ item, normalize (LineItem.description item))
                                   <$> Invoice.items t2) : gset string)
                   ## list_to_set ((λ item, normalize (LineItem.description item))
                                     <$> Invoice.items t1)) by now symmetry.
  rewrite (post_transactions_eq div (Server.post_transactions div db t1).1 t2).
  rewrite (post_transactions_eq div (Server.post_transactions div db t2).1 t1).
  rewrite (post_transactions_lookup_ne div db t1 (Invoice.id t2) Hid).
  rewrite (post_transactions_lookup_ne div db t2 (Invoice.id t1)) by congruence.
  rewrite !(post_transactions_eq div db). cbn [Server.Transaction Server.Inventory].
  destruct (Server.Transaction db !! Invoice.id t1) as [s1|],
           (Server.Transaction db !! Invoice.id t2) as [s2|].
  - f_equal. now apply insert_insert_ne.
  - f_equal.
    destruct (Server.adjust_all div t2 (Server.Inventory db) (Invoice.items t2)).2;
      [now apply insert_insert_ne|reflexivity].
  - f_equal.
    destruct (Server.adjust_all div t1 (Server.Inventory db) (Invoice.items t1)).2;
      [now apply insert_insert_ne|reflexivity].
  - destruct (adjust_all_apart div t1 t2 (Invoice.items t1) (Invoice.items t2)
                (Server.Inventory db) Hdisj) as [F2 E].
    destruct (adjust_all_apart div t2 t1 (Invoice.items t2) (Invoice.items t1)
                (Server.Inventory db) Hdisj') as [F1 _].
    rewrite F1, F2, E. f_equal.
    destruct (Server.adjust_all div t1 (Server.Inventory db) (Invoice.items t1)).2,
             (Server.adjust_all div t2 (Server.Inventory db) (Invoice.items t2)).2;
      try reflexivity.
    now apply insert_insert_ne.
Qed.

Lemma post_transactions_commute_witness :
  (Server.post_transactions Qdiv (Server.post_transactions Qdiv Server.empty seed_purchase).1
     mouse_sale).1
  = (Server.post_transactions Qdiv (Server.post_transactions Qdiv Server.empty mouse_sale).1
       seed_purchase).1.
Proof.
  apply (post_transactions_commute Qdiv Server.empty seed_purchase mouse_sale).
  - discriminate.
  - apply (bool_decide_unpack _). vm_compute. exact I.
Defined.

(** * Properties of the form *)

(** X19. Editing the lines of the form: removing the line that [addItem]
    just added gives the lines back when no other line has its id;
    [removeItem] leaves no line of the id and keeps the others;
    [updateItem] of a description, a quantity or a price keeps the number of
    lines and their ids, and leaves the lines of other ids as they were. *)
Theorem form_lines (now id : string) (fv : InvoiceForm.FieldValue)
    (items : list LineItem.t) :
  now ∉ (LineItem.id <$> items) →
  (∀ value, fv ≠ InvoiceForm.id_ value) →
  InvoiceForm.removeItem now (InvoiceForm.addItem now items) = items
  ∧ (id ∉ (LineItem.id <$> InvoiceForm.removeItem id items))
  ∧ (∀ i, i ∈ InvoiceForm.removeItem id items ↔ i ∈ items ∧ LineItem.id i ≠ id)
  ∧ length (InvoiceForm.updateItem id fv items) = length items
  ∧ LineItem.id <$> InvoiceForm.updateItem id fv items = LineItem.id <$> items
  ∧ InvoiceForm.removeItem id (InvoiceForm.updateItem id fv items)
    = InvoiceForm.removeItem id items.
Proof.
  intros Hnow Hfv.
  assert (Hid : ∀ i, LineItem.id (InvoiceForm.assign i fv) = LineItem.id i).
  { intros i. destruct fv; try reflexivity. now destruct (Hfv value). }
  split; [|split; [|split; [|split; [|split]]]].
  - unfold InvoiceForm.removeItem, InvoiceForm.addItem.
    rewrite List.filter_app. simpl. rewrite bool_decide_eq_true_2 by reflexivity.
    simpl. rewrite app_nil_r.
    induction items as [|i items IH]; simpl; [reflexivity|].
    rewrite fmap_cons in Hnow. apply not_elem_of_cons in Hnow as [Hi Hnow].
    rewrite bool_decide_eq_false_2 by congruence. simpl. f_equal. now apply IH.
  - intros (i & Hi & Hin)%list_elem_of_fmap. apply list_elem_of_In in Hin.
    apply List.filter_In in Hin as [_ Hin]. subst id.
    now rewrite bool_decide_eq_true_2 in Hin.
  - intros i. unfold InvoiceForm.removeItem.
    rewrite !list_elem_of_In, List.filter_In, negb_true_iff, bool_decide_eq_false.
    reflexivity.
  - unfold InvoiceForm.updateItem. apply length_map.
  - unfold InvoiceForm.updateItem. clear Hnow.
    induction items as [|i items IH]; [reflexivity|].
    cbn [map]. rewrite !fmap_cons, IH. f_equal.
    case_bool_decide; [apply Hid|reflexivity].
  - unfold InvoiceForm.removeItem, InvoiceForm.updateItem.
    clear Hnow. induction items as [|i items IH]; [reflexivity|].
    cbn [map List.filter]. rewrite IH.
    destruct (decide (LineItem.id i = id)) as [Hi|Hi].
    + rewrite (bool_decide_eq_true_2 _ Hi), Hid, (bool_decide_eq_true_2 _ Hi).
      reflexivity.
    + rewrite (bool_decide_eq_false_2 _ Hi). cbv iota.
      rewrite (bool_decide_eq_false_2 _ Hi). reflexivity.
Qed.

Lemma form_lines_witness :
  InvoiceForm.removeItem "i7"
    (InvoiceForm.addItem "i7"
       [LineItem.mk "i5" "Mouse" 2 500; LineItem.mk "i6" "Keyboard" 1 1500])
  = [LineItem.mk "i5" "Mouse" 2 500; LineItem.mk "i6" "Keyboard" 1 1500].
Proof.
  apply (form_lines "i7" "i5" (InvoiceForm.price_ 550)
           [LineItem.mk "i5" "Mouse" 2 500; LineItem.mk "i6" "Keyboard" 1 1500]).
  - apply (bool_decide_unpack _). vm_compute. exact I.
  - discriminate.
Defined.



(** * Properties of the stock list *)

Lemma Qltb_lt x y : InventoryList.Qltb x y = true ↔ (x < y)%Q.
Proof.
  unfold InventoryList.Qltb.
  rewrite negb_true_iff, <- not_true_iff_false, Qle_bool_iff.
  split; [apply Qnot_le_lt|apply Qlt_not_le].
Qed.

Lemma badge_cases item :
  (InventoryList.badge item = InventoryList.OutOfStock
   ↔ (InventoryItem.quantity item <= 0)%Q)
  ∧ (InventoryList.badge item = InventoryList.LowStock
     ↔ (0 < InventoryItem.quantity item)%Q ∧ (InventoryItem.quantity item < 5)%Q)
  ∧ (InventoryList.badge item = InventoryList.InStock
     ↔ (5 <= InventoryItem.quantity item)%Q).
Proof.
  unfold InventoryList.badge.
  destruct (Qle_bool (InventoryItem.quantity item) 0) eqn:E0.
  - apply Qle_bool_iff in E0.
    repeat split; try discriminate; try (intros; assumption);
      try (intros; reflexivity); try (intros; split; assumption);
      intros H; exfalso; (lra || (destruct H; lra)).
  - assert (H0 : (0 < InventoryItem.quantity item)%Q).
    { apply Qnot_le_lt. intros H. apply Qle_bool_iff in H. congruence. }
    destruct (InventoryList.Qltb (InventoryItem.quantity item) 5) eqn:E5.
    + apply Qltb_lt in E5.
      repeat split; try discriminate; try (intros; assumption);
      try (intros; reflexivity); try (intros; split; assumption);
      intros H; exfalso; (lra || (destruct H; lra)).
    + assert (H5 : (5 <= InventoryItem.quantity item)%Q).
      { apply Qnot_lt_le. intros H. apply Qltb_lt in H. congruence. }
      repeat split; try discriminate; try (intros; assumption);
      try (intros; reflexivity); try (intros; split; assumption);
      intros H; exfalso; (lra || (destruct H; lra)).
Qed.



(** * The dashboard *)

Section DashboardFacts.

Local Abbreviation is_sale :=
  (λ t : Invoice.t, match Invoice.type t with SALE => true | PURCHASE => false end).
Local Abbreviation is_purchase :=
  (λ t : Invoice.t, match Invoice.type t with PURCHASE => true | SALE => false end).
Local Abbreviation is_pending :=
  (λ t : Invoice.t, match Invoice.status t with PENDING => true | _ => false end).
Local Abbreviation total :=
  (foldl (λ (sum : Q) (t : Invoice.t), (sum + Invoice.totalAmount t)%Q) 0%Q).

Lemma total_snoc ts t : total (ts ++ [t]) = (total ts + Invoice.totalAmount t)%Q.
Proof. now rewrite foldl_app. Qed.

Lemma stats_totalRevenue ts :
  Dashboard.totalRevenue (Dashboard.stats ts) = total (List.filter is_sale ts).
Proof. reflexivity. Qed.

Lemma stats_totalExpenses ts :
  Dashboard.totalExpenses (Dashboard.stats ts) = total (List.filter is_purchase ts).
Proof. reflexivity. Qed.

Lemma stats_pendingCollections ts :
  Dashboard.pendingCollections (Dashboard.stats ts)
  = total (List.filter is_pending (List.filter is_sale ts)).
Proof. reflexivity. Qed.

End DashboardFacts.

(** X21. The figures of the dashboard, transaction by transaction.  With no
    transaction every total is 0.  A transaction put at the end of the list
    adds its total amount to the revenue when it is a sale, to the expenses
    when it is a purchase, and to the pending collections when it is a sale
    whose status is pending, and leaves the other totals as they are.  A
    purchase put anywhere in the list leaves the revenue and the pending
    collections as they are, a sale the expenses.  The net profit is the
    revenue less the expenses. *)
Theorem dashboard_stats (transactions after : list Invoice.t) (t : Invoice.t) :
  let stats := Dashboard.stats transactions in
  let stats' := Dashboard.stats (transactions ++ [t]) in
  Dashboard.stats [] = Dashboard.mkStats 0 0 (0 - 0) 0
  ∧ Dashboard.totalRevenue stats'
    = match Invoice.type t with
      | SALE => (Dashboard.totalRevenue stats + Invoice.totalAmount t)%Q
      | PURCHASE => Dashboard.totalRevenue stats
      end
  ∧ Dashboard.totalExpenses stats'
    = match Invoice.type t with
      | PURCHASE => (Dashboard.totalExpenses stats + Invoice.totalAmount t)%Q
      | SALE => Dashboard.totalExpenses stats
      end
  ∧ Dashboard.pendingCollections stats'
    = match Invoice.type t, Invoice.status t with
      | SALE, PENDING => (Dashboard.pendingCollections stats + Invoice.totalAmount t)%Q
      | _, _ => Dashboard.pendingCollections stats
      end
  ∧ Dashboard.netProfit stats
    = (Dashboard.totalRevenue stats - Dashboard.totalExpenses stats)%Q
  ∧ match Invoice.type t with
    | PURCHASE =>
        Dashboard.totalRevenue (Dashboard.stats (transactions ++ t :: after))
        = Dashboard.totalRevenue (Dashboard.stats (transactions ++ after))
        ∧ Dashboard.pendingCollections (Dashboard.stats (transactions ++ t :: after))
          = Dashboard.pendingCollections (Dashboard.stats (transactions ++ after))
    | SALE =>
        Dashboard.totalExpenses (Dashboard.stats (transactions ++ t :: after))
        = Dashboard.totalExpenses (Dashboard.stats (transactions ++ after))
    end.
Proof.
  cbv zeta.
  rewrite !stats_totalRevenue, !stats_totalExpenses, !stats_pendingCollections.
  rewrite !List.filter_app. cbn [List.filter].
  repeat split.
  - destruct (Invoice.type t); [now rewrite app_nil_r|apply total_snoc].
  - destruct (Invoice.type t); [apply total_snoc|now rewrite app_nil_r].
  - destruct (Invoice.type t); [now rewrite app_nil_r|].
    cbn [List.filter].
    destruct (Invoice.status t); try now rewrite app_nil_r.
    apply total_snoc.
  - destruct (Invoice.type t); [|reflexivity].
    split; reflexivity.
Qed.

Lemma dashboard_stats_witness :
  Dashboard.stats [seed_purchase; seed_sale; restock; early_sale; mouse_sale]
  = Dashboard.mkStats
      (0 + Invoice.totalAmount seed_sale + Invoice.totalAmount early_sale
       + Invoice.totalAmount mouse_sale)
      (0 + Invoice.totalAmount seed_purchase + Invoice.totalAmount restock)
      (0 + Invoice.totalAmount seed_sale + Invoice.totalAmount early_sale
       + Invoice.totalAmount mouse_sale
       - (0 + Invoice.totalAmount seed_purchase + Invoice.totalAmount restock))
      (0 + Invoice.totalAmount early_sale + Invoice.totalAmount mouse_sale)
  ∧ Dashboard.totalRevenue
      (Dashboard.stats [seed_purchase; seed_sale; restock; early_sale; mouse_sale])
    = (Dashboard.totalRevenue
         (Dashboard.stats [seed_purchase; seed_sale; restock; early_sale])
       + Invoice.totalAmount mouse_sale)%Q.
Proof.
  split; [reflexivity|].
  exact (proj1 (proj2 (dashboard_stats [seed_purchase; seed_sale; restock; early_sale]
                         [] mouse_sale))).
Defined.
